(** * Chain bridge of taproot-assets ([chain_bridge.go])

    A shallow embedding of [LndRpcChainBridge] and [LndMsgTransportClient].
    The remote lnd node is an explicit state [B] with one transition
    function per RPC; every bridge method is a computation in a small
    state-and-trace monad that threads the bridge fields and the node and
    records, in order, every RPC it issues. *)

From Stdlib Require Import String ZArith List Bool Lia.
From Stdlib Require Strings.Byte.
Import ListNotations.
Local Open Scope Z_scope.

(** ** Go integer conversions *)

Module GoInt.

(** [uint32(x)]: keep the low 32 bits. *)
Definition uint32 (x : Z) : Z := x mod 2 ^ 32.

(** [int32(x)]: low 32 bits, read as two's complement. *)
Definition int32 (x : Z) : Z := (x + 2 ^ 31) mod 2 ^ 32 - 2 ^ 31.

(** [int64(x)]: low 64 bits, read as two's complement. *)
Definition int64 (x : Z) : Z := (x + 2 ^ 63) mod 2 ^ 64 - 2 ^ 63.

Definition is_uint32 (x : Z) : Prop := 0 <= x < 2 ^ 32.
Definition is_int64 (x : Z) : Prop := - 2 ^ 63 <= x < 2 ^ 63.

End GoInt.
Import GoInt.

(** ** Chain data *)

Definition bytes := list Byte.byte.

(** [chainhash.Hash] is a [[32]byte]; Go compares arrays element-wise. *)
Definition Hash := list Byte.byte.

Definition Hash_eq_dec : forall h1 h2 : Hash, {h1 = h2} + {h1 <> h2} :=
  list_eq_dec Byte.byte_eq_dec.

(** [wire.BlockHeader]; [Timestamp] is the [time.Time] field read through
    [Unix()], a signed 64-bit number of seconds. *)
Record BlockHeader := {
  HdrVersion : Z;
  PrevBlock : Hash;
  MerkleRoot : Hash;
  Timestamp : Z;
  Bits : Z;
  Nonce : Z
}.

Definition MsgTx := bytes.

Record MsgBlock := {
  Header : BlockHeader;
  Transactions : list MsgTx
}.

(** [verrpc.Version], the three fields the bridge fills in. *)
Record Version := {
  AppMajor : Z;
  AppMinor : Z;
  AppPatch : Z
}.

(** [lndclient.Info], the field the bridge reads. *)
Record Info := { BlockHeight : Z }.

(** Channels are handles; [None] is the nil channel. *)
Definition chan := nat.

Inductive NotifierOption :=
| WithReOrgChan (reOrgChan : option chan)
| WithIncludeBlock.

(** [chainntnfs.ConfirmationEvent]: the [Cancel] field is the cancel
    function of the derived context, the model keeps the channel. *)
Record ConfirmationEvent := { Confirmed : option chan }.

(** [route.Vertex] is a [[33]byte]. *)
Definition Vertex := list Byte.byte.

Record PublicKey := { PubX : Z; PubY : Z }.

(** [lndclient.CustomMessage] *)
Record CustomMessage := {
  Peer : Vertex;
  MsgType : Z;
  Data : bytes
}.

(** ** Errors

    A Go [error] is either a leaf value made elsewhere (by lnd, by an
    encoder) or the result of [fmt.Errorf]: the format string and its
    operands, each tagged with the verb that prints it. *)

Inductive error : Type :=
| ErrorNew (msg : string)
| Errorf (format : string) (args : list fmt_arg)
with fmt_arg : Type :=
| ArgD (n : Z)
| ArgS (h : Hash)
| ArgW (e : error).

(** [errors.Unwrap]: the operand of [%w], if there is one. *)
Fixpoint first_wrapped (args : list fmt_arg) : option error :=
  match args with
  | [] => None
  | ArgW e :: _ => Some e
  | _ :: rest => first_wrapped rest
  end.

Definition Unwrap (e : error) : option error :=
  match e with
  | ErrorNew _ => None
  | Errorf _ args => first_wrapped args
  end.

(** [r] is [e] with context added: a [fmt.Errorf] that wraps [e]. *)
Definition adds_context (e r : error) : Prop :=
  exists format args, r = Errorf format args /\ Unwrap r = Some e.

(** The [error] half of a [(value, error)] return. *)
Definition err_of {A} (r : error + A) : option error :=
  match r with
  | inl e => Some e
  | inr _ => None
  end.

Definition is_nil {A} (o : option A) : bool :=
  match o with
  | None => true
  | Some _ => false
  end.

(** ** The timestamp cache *)

Module lru.

(** Modelled from the spec: [lru.Cache] and its [NewCache], [Get] and
    [Put] are imported from a library and are not under src/.  Section
    4.1 of the spec: a bounded key-to-value store from block height to
    block timestamp; capacity fixed at construction; on [put] at
    capacity the least-recently-used entry is evicted before insertion;
    [get] counts as a use and refreshes recency; absence is signalled by
    the found flag.  The entries are kept most recently used first, so
    the least recently used one is the last. *)
Record Cache := {
  capacity : Z;
  ll : list (Z * Z)
}.

(** Modelled from the spec: capacity is fixed at construction; a new
    cache is empty. *)
Definition NewCache (capacity : Z) : Cache :=
  {| capacity := capacity; ll := [] |}.

(** The number of entries held. *)
Definition Len (c : Cache) : Z := Z.of_nat (length (ll c)).

(** The value stored under [key], and the entries without that key. *)
Fixpoint find (key : Z) (l : list (Z * Z)) : option Z :=
  match l with
  | [] => None
  | (k, v) :: rest => if k =? key then Some v else find key rest
  end.

Fixpoint remove (key : Z) (l : list (Z * Z)) : list (Z * Z) :=
  match l with
  | [] => []
  | (k, v) :: rest => if k =? key then rest else (k, v) :: remove key rest
  end.

(** Modelled from the spec: [get(height) -> (timestamp, found)]; a hit
    moves the entry to the front. *)
Definition Get (key : Z) (c : Cache) : option Z * Cache :=
  match find key (ll c) with
  | Some v =>
      (Some v, {| capacity := capacity c; ll := (key, v) :: remove key (ll c) |})
  | None => (None, c)
  end.

(** Modelled from the spec: [put(height, timestamp) -> evicted?].  The
    store maps a key to one value, so an entry already stored under the
    key is replaced; then, at capacity, the last entry goes; then the
    new entry is placed in front. *)
Definition Put (key value : Z) (c : Cache) : bool * Cache :=
  let l := remove key (ll c) in
  let full := capacity c <=? Z.of_nat (length l) in
  let l' := if full then removelast l else l in
  (full, {| capacity := capacity c; ll := (key, value) :: l' |}).


(** Every stored timestamp is a [uint32], as the value type says. *)
Definition typed (c : Cache) : Prop :=
  Forall (fun kv => is_uint32 (snd kv)) (ll c).

Definition bounded (c : Cache) : Prop := Len c <= capacity c.

End lru.

(** Modelled from the spec: [cacheableTimestamp] is declared in another
    file of the package; section 3 of the spec gives the cache value as a
    32-bit unsigned number of seconds, so the conversion from [uint32] is
    the identity, and so is the one to [int64]. *)
Definition cacheableTimestamp (ts : Z) : Z := uint32 ts.

(** [maxNumBlocksInCache] *)
Definition maxNumBlocksInCache : Z := 100000.

(** ** The bridge and the node *)

(** [LndRpcChainBridge]: the two fields that change.  The [lnd] handle is
    the [LndServices] record below, [assetStore] is only handed on. *)
Record LndRpcChainBridge := {
  getBlockHeaderSupported : option bool;
  blockTimestampCache : lru.Cache
}.

(** [NewLndRpcChainBridge] *)
Definition NewLndRpcChainBridge : LndRpcChainBridge :=
  {| getBlockHeaderSupported := None;
     blockTimestampCache := lru.NewCache maxNumBlocksInCache |}.

(** What a method does besides returning, in order. *)
Inductive Event :=
| CallGetBlock (hash : Hash)
| CallGetBlockHeader (hash : Hash)
| CallGetBlockHash (blockHeight : Z)
| CallGetInfo
| CallPublishTransaction (tx : MsgTx) (label : string)
| CallEstimateFeeRate (confTarget : Z)
| CallRegisterConfirmationsNtfn (txid : Hash) (pkScript : bytes)
    (numConfs heightHint : Z) (opts : list NotifierOption)
| CallRegisterBlockEpochNtfn
| CallSubscribeCustomMessages
| CallSendCustomMessage (msg : CustomMessage)
| EvAssertVersionCompatible (actual expected : Version)
| EvCancel.

(** The events that are requests to the node. *)
Definition is_rpc (ev : Event) : bool :=
  match ev with
  | EvAssertVersionCompatible _ _ | EvCancel => false
  | _ => true
  end.

Definition is_version_check (ev : Event) : bool :=
  match ev with
  | EvAssertVersionCompatible _ _ => true
  | _ => false
  end.

Definition rpcs (t : list Event) : list Event := filter is_rpc t.

Definition version_checks (t : list Event) : Z :=
  Z.of_nat (length (filter is_version_check t)).

(** [lndclient.LndServices] over a node whose state is [B]: the version
    reported at connection time and the RPCs the bridge uses. *)
Record LndServices (B : Type) := {
  LndVersion : Version;
  ChainKit_GetBlock : Hash -> B -> (error + MsgBlock) * B;
  ChainKit_GetBlockHeader : Hash -> B -> (error + BlockHeader) * B;
  ChainKit_GetBlockHash : Z -> B -> (error + Hash) * B;
  Client_GetInfo : B -> (error + Info) * B;
  WalletKit_PublishTransaction : MsgTx -> string -> B -> option error * B;
  WalletKit_EstimateFeeRate : Z -> B -> (error + Z) * B;
  ChainNotifier_RegisterConfirmationsNtfn :
    Hash -> bytes -> Z -> Z -> list NotifierOption -> B ->
    (option chan * option chan * option error) * B;
  ChainNotifier_RegisterBlockEpochNtfn :
    B -> (option chan * option chan * option error) * B;
  Client_SubscribeCustomMessages :
    B -> (option chan * option chan * option error) * B;
  Client_SendCustomMessage : CustomMessage -> B -> option error * B
}.

Arguments LndVersion {B}.
Arguments ChainKit_GetBlock {B}.
Arguments ChainKit_GetBlockHeader {B}.
Arguments ChainKit_GetBlockHash {B}.
Arguments Client_GetInfo {B}.
Arguments WalletKit_PublishTransaction {B}.
Arguments WalletKit_EstimateFeeRate {B}.
Arguments ChainNotifier_RegisterConfirmationsNtfn {B}.
Arguments ChainNotifier_RegisterBlockEpochNtfn {B}.
Arguments Client_SubscribeCustomMessages {B}.
Arguments Client_SendCustomMessage {B}.

(** [lnwire.Message]: an encoder into a buffer, a decoder and the type
    code (a [uint16]).  [Encode] gets the buffer's contents and returns
    them with what it wrote. *)
Class Message (T : Type) := {
  Encode : T -> bytes -> Z -> bytes * option error;
  Decode : bytes -> Z -> error + T;
  MsgTypeOf : T -> Z
}.

(** ** The monad *)

Record World (B : Type) := {
  bridge : LndRpcChainBridge;
  node : B
}.

Arguments bridge {B}.
Arguments node {B}.

Definition M (B A : Type) : Type := World B -> A * World B * list Event.

Definition ret {B A} (a : A) : M B A := fun w => (a, w, []).

Definition bind {B A C} (m : M B A) (k : A -> M B C) : M B C :=
  fun w =>
    let '(a, w1, t1) := m w in
    let '(c, w2, t2) := k a w1 in
    (c, w2, t1 ++ t2).

Declare Scope bridge_scope.
Delimit Scope bridge_scope with bridge.
Notation "x <- m ;; k" := (bind m (fun x => k))
  (at level 100, m at next level, right associativity) : bridge_scope.
Notation "m ;;; k" := (bind m (fun _ => k))
  (at level 100, right associativity) : bridge_scope.
Local Open Scope bridge_scope.

(** One request to the node. *)
Definition rpc {B A} (ev : Event) (f : B -> A * B) : M B A :=
  fun w =>
    let (a, n) := f (node w) in
    (a, {| bridge := bridge w; node := n |}, [ev]).

Definition emit {B} (ev : Event) : M B unit := fun w => (tt, w, [ev]).

Definition get_bridge {B} : M B LndRpcChainBridge :=
  fun w => (bridge w, w, []).

Definition put_bridge {B} (l : LndRpcChainBridge) : M B unit :=
  fun w => (tt, {| bridge := l; node := node w |}, []).

(** ** A small node to run the methods on *)

Module Demo.

Definition hashA : Hash := repeat Byte.x0a 32.
Definition hashB : Hash := repeat Byte.x0b 32.

(** Mined in 2106 or later: the timestamp needs 33 bits. *)
Definition headerA : BlockHeader :=
  {| HdrVersion := 2; PrevBlock := hashB; MerkleRoot := hashB;
     Timestamp := 2 ^ 32 + 5; Bits := 486604799; Nonce := 1 |}.


Definition blockA : MsgBlock := {| Header := headerA; Transactions := [] |}.

Definition BlockHash (h : BlockHeader) : Hash :=
  if Nonce h =? 1 then hashA else hashB.

Definition AssertVersionCompatible (actual expected : Version)
  : option error :=
  if negb (AppMajor actual =? AppMajor expected) then
    Some (ErrorNew "incompatible major version")
  else if AppMinor expected <? AppMinor actual then None
  else if AppMinor actual <? AppMinor expected then
    Some (ErrorNew "minor version too old")
  else if AppPatch expected <=? AppPatch actual then None
  else Some (ErrorNew "patch version too old").

Definition NewVertex (k : PublicKey) : Vertex :=
  (if Z.even (PubY k) then Byte.x02 else Byte.x03) :: repeat Byte.x00 32.

(** The node knows block A at height 1 and only the hash of the block
    at height 2; its state counts the requests it has answered. *)
Definition lnd (v : Version) : LndServices nat :=
  {| LndVersion := v;
     ChainKit_GetBlock := fun hash n =>
       (if Hash_eq_dec hash hashA then inr blockA
        else inl (ErrorNew "block not found"), S n);
     ChainKit_GetBlockHeader := fun hash n =>
       (if Hash_eq_dec hash hashA then inr headerA
        else inl (ErrorNew "header not found"), S n);
     ChainKit_GetBlockHash := fun height n =>
       (if height =? 1 then inr hashA
        else if height =? 2 then inr hashB
        else inl (ErrorNew "height out of range"), S n);
     Client_GetInfo := fun n => (inr {| BlockHeight := 2 |}, S n);
     WalletKit_PublishTransaction := fun tx label n =>
       (match tx with
        | [] => Some (ErrorNew "empty transaction")
        | _ => None
        end, S n);
     WalletKit_EstimateFeeRate := fun confTarget n =>
       (if confTarget <? 1 then inl (ErrorNew "bad conf target")
        else inr 253, S n);
     ChainNotifier_RegisterConfirmationsNtfn :=
       fun txid pkScript numConfs heightHint opts n =>
       (if numConfs <? 1 then (None, None, Some (ErrorNew "bad num confs"))
        else (Some 1%nat, Some 2%nat, None), S n);
     ChainNotifier_RegisterBlockEpochNtfn := fun n =>
       ((Some 3%nat, Some 4%nat, None), S n);
     Client_SubscribeCustomMessages := fun n =>
       ((Some 5%nat, Some 6%nat, None), S n);
     Client_SendCustomMessage := fun msg n =>
       (match Data msg with
        | [] => Some (ErrorNew "empty message")
        | _ => None
        end, S n) |}.

Definition v0_16_0 : Version := {| AppMajor := 0; AppMinor := 16; AppPatch := 0 |}.
Definition v0_18_0 : Version := {| AppMajor := 0; AppMinor := 18; AppPatch := 0 |}.

(** A fresh bridge on a node that has answered nothing yet. *)
Definition w0 : World nat := {| bridge := NewLndRpcChainBridge; node := O |}.

(** A message whose body is a list of bytes behind a length byte; bodies
    of 256 bytes or more do not encode. *)
Record Ping := { PingBody : bytes }.

Definition encodePing (m : Ping) (buf : bytes) (pver : Z)
  : bytes * option error :=
  match Byte.of_N (N.of_nat (length (PingBody m))) with
  | Some len => (buf ++ len :: PingBody m, None)
  | None => (buf, Some (ErrorNew "ping body too long"))
  end.

Definition decodePing (buf : bytes) (pver : Z) : error + Ping :=
  match buf with
  | [] => inl (ErrorNew "short read")
  | len :: body =>
      if (N.of_nat (length body) =? Byte.to_N len)%N
      then inr {| PingBody := body |}
      else inl (ErrorNew "bad length")
  end.

#[global] Instance PingMessage : Message Ping :=
  {| Encode := encodePing; Decode := decodePing; MsgTypeOf := fun _ => 18 |}.

End Demo.

(** ** The methods of [LndRpcChainBridge] *)

Section Bridge.

Context {B : Type}.

(** The [lnd] field. *)
Variable lnd : LndServices B.

(** [wire.BlockHeader.BlockHash] *)
Variable BlockHash : BlockHeader -> Hash.

(** [lndclient.AssertVersionCompatible actual expected] *)
Variable AssertVersionCompatible : Version -> Version -> option error.

(** [RegisterConfirmationsNtfn]; [cancel()] runs on the error path. *)
Definition RegisterConfirmationsNtfn (txid : Hash) (pkScript : bytes)
    (numConfs heightHint : Z) (includeBlock : bool)
    (reOrgChan : option chan)
  : M B (option ConfirmationEvent * option chan * option error) :=
  let opts := [WithReOrgChan reOrgChan] in
  let opts := if includeBlock then opts ++ [WithIncludeBlock] else opts in
  r <- rpc (CallRegisterConfirmationsNtfn txid pkScript
              (int32 numConfs) (int32 heightHint) opts)
           (ChainNotifier_RegisterConfirmationsNtfn lnd txid pkScript
              (int32 numConfs) (int32 heightHint) opts) ;;
  let '(confChan, errChan, err) := r in
  match err with
  | Some err =>
      emit EvCancel ;;;
      ret (None, None,
           Some (Errorf "unable to register for conf: %w" [ArgW err]))
  | None => ret (Some {| Confirmed := confChan |}, errChan, None)
  end.

(** [RegisterBlockEpochNtfn] *)
Definition RegisterBlockEpochNtfn
  : M B (option chan * option chan * option error) :=
  rpc CallRegisterBlockEpochNtfn (ChainNotifier_RegisterBlockEpochNtfn lnd).

(** [GetBlock] *)
Definition GetBlock (hash : Hash) : M B (error + MsgBlock) :=
  r <- rpc (CallGetBlock hash) (ChainKit_GetBlock lnd hash) ;;
  match r with
  | inl err => ret (inl (Errorf "unable to retrieve block: %w" [ArgW err]))
  | inr block => ret (inr block)
  end.

(** [GetBlockHeader] *)
Definition GetBlockHeader (hash : Hash) : M B (error + BlockHeader) :=
  r <- rpc (CallGetBlockHeader hash) (ChainKit_GetBlockHeader lnd hash) ;;
  match r with
  | inl err =>
      ret (inl (Errorf "unable to retrieve block header: %w" [ArgW err]))
  | inr header => ret (inr header)
  end.

(** [GetBlockHash] *)
Definition GetBlockHash (blockHeight : Z) : M B (error + Hash) :=
  r <- rpc (CallGetBlockHash blockHeight)
           (ChainKit_GetBlockHash lnd blockHeight) ;;
  match r with
  | inl err =>
      ret (inl (Errorf "unable to retrieve block hash: %w" [ArgW err]))
  | inr blockHash => ret (inr blockHash)
  end.

(** The constant of [GetBlockHeaderSupported]: lnd v0.17.1. *)
Definition getBlockHeaderMinimalVersion : Version :=
  {| AppMajor := 0; AppMinor := 17; AppPatch := 1 |}.

(** [GetBlockHeaderSupported] *)
Definition GetBlockHeaderSupported : M B bool :=
  l <- get_bridge ;;
  match getBlockHeaderSupported l with
  | Some supported => ret supported
  | None =>
      emit (EvAssertVersionCompatible (LndVersion lnd)
              getBlockHeaderMinimalVersion) ;;;
      let getBlockHeaderUnsupported :=
        AssertVersionCompatible (LndVersion lnd)
          getBlockHeaderMinimalVersion in
      let supported := is_nil getBlockHeaderUnsupported in
      put_bridge {| getBlockHeaderSupported := Some supported;
                    blockTimestampCache := blockTimestampCache l |} ;;;
      ret supported
  end.

(** [VerifyBlock] *)
Definition VerifyBlock (header : BlockHeader) (height : Z)
  : M B (option error) :=
  if height =? 0 then
    r <- GetBlock (BlockHash header) ;;
    ret (err_of r)
  else
    r <- GetBlockHash (int64 height) ;;
    match r with
    | inl err => ret (Some err)
    | inr hash =>
        let expectedHash := BlockHash header in
        if Hash_eq_dec hash expectedHash then
          supported <- GetBlockHeaderSupported ;;
          if supported : bool then
            r <- GetBlockHeader (BlockHash header) ;;
            ret (err_of r)
          else
            r <- GetBlock (BlockHash header) ;;
            ret (err_of r)
        else
          ret (Some (Errorf ("block hash and block height " ++
                             "mismatch; (height: %d, hashAtHeight: %s, " ++
                             "expectedHash: %s)")
                       [ArgD height; ArgS hash; ArgS expectedHash]))
    end.

(** [CurrentHeight] *)
Definition CurrentHeight : M B (error + Z) :=
  r <- rpc CallGetInfo (Client_GetInfo lnd) ;;
  match r with
  | inl err => ret (inl (Errorf "unable to grab block height: %w" [ArgW err]))
  | inr info => ret (inr (BlockHeight info))
  end.

Definition cache_get (key : Z) : M B (option Z) :=
  fun w =>
    let (r, c) := lru.Get key (blockTimestampCache (bridge w)) in
    (r, {| bridge := {| getBlockHeaderSupported :=
                          getBlockHeaderSupported (bridge w);
                        blockTimestampCache := c |};
           node := node w |}, []).

Definition cache_put (key value : Z) : M B bool :=
  fun w =>
    let (r, c) := lru.Put key value (blockTimestampCache (bridge w)) in
    (r, {| bridge := {| getBlockHeaderSupported :=
                          getBlockHeaderSupported (bridge w);
                        blockTimestampCache := c |};
           node := node w |}, []).

(** The tail of [GetBlockTimestamp], from the header on. *)
Definition store_timestamp (height : Z) (header : BlockHeader) : M B Z :=
  let ts := uint32 (Timestamp header) in
  cache_put height (cacheableTimestamp ts) ;;;
  ret (int64 ts).

(** [GetBlockTimestamp] *)
Definition GetBlockTimestamp (height : Z) : M B Z :=
  if height =? 0 then ret 0
  else
    cacheTS <- cache_get height ;;
    match cacheTS with
    | Some cacheTS => ret (int64 cacheTS)
    | None =>
        r <- rpc (CallGetBlockHash (int64 height))
                 (ChainKit_GetBlockHash lnd (int64 height)) ;;
        match r with
        | inl _ => ret 0
        | inr hash =>
            supported <- GetBlockHeaderSupported ;;
            if supported : bool then
              r <- GetBlockHeader hash ;;
              match r with
              | inl _ => ret 0
              | inr header => store_timestamp height header
              end
            else
              r <- rpc (CallGetBlock hash) (ChainKit_GetBlock lnd hash) ;;
              match r with
              | inl _ => ret 0
              | inr block => store_timestamp height (Header block)
              end
        end
    end.

(** [PublishTransaction] *)
Definition PublishTransaction (tx : MsgTx) : M B (option error) :=
  let label := "tapd-asset-minting"%string in
  rpc (CallPublishTransaction tx label)
      (WalletKit_PublishTransaction lnd tx label).

(** [EstimateFee] *)
Definition EstimateFee (confTarget : Z) : M B (error + Z) :=
  rpc (CallEstimateFeeRate (int32 confTarget))
      (WalletKit_EstimateFeeRate lnd (int32 confTarget)).

(** ** The methods of [LndMsgTransportClient] *)

(** [route.NewVertex] of the key. *)
Variable NewVertex : PublicKey -> Vertex.

(** [SubscribeCustomMessages] *)
Definition SubscribeCustomMessages
  : M B (option chan * option chan * option error) :=
  rpc CallSubscribeCustomMessages (Client_SubscribeCustomMessages lnd).

(** [SendCustomMessage] *)
Definition SendCustomMessage (msg : CustomMessage) : M B (option error) :=
  rpc (CallSendCustomMessage msg) (Client_SendCustomMessage lnd msg).

(** [SendMessage] *)
Definition SendMessage {T} `{Message T} (peer : PublicKey) (msg : T)
  : M B (option error) :=
  let (buf, err) := Encode msg [] 0 in
  match err with
  | Some err => ret (Some (Errorf "unable to encode message: %w" [ArgW err]))
  | None =>
      SendCustomMessage {| Peer := NewVertex peer;
                           MsgType := uint32 (MsgTypeOf msg);
                           Data := buf |}
  end.

(** ** Sequences of calls on one bridge *)

Inductive Op :=
| OpRegisterConfirmationsNtfn (txid : Hash) (pkScript : bytes)
    (numConfs heightHint : Z) (includeBlock : bool)
    (reOrgChan : option chan)
| OpRegisterBlockEpochNtfn
| OpGetBlock (hash : Hash)
| OpGetBlockHeader (hash : Hash)
| OpGetBlockHash (blockHeight : Z)
| OpGetBlockHeaderSupported
| OpVerifyBlock (header : BlockHeader) (height : Z)
| OpCurrentHeight
| OpGetBlockTimestamp (height : Z)
| OpPublishTransaction (tx : MsgTx)
| OpEstimateFee (confTarget : Z).

Definition third {A C} (r : A * C * option error) : option error :=
  let '(_, _, err) := r in err.

(** One call; what is kept is the [error] it returns ([None] for the
    two methods that return no [error]). *)
Definition exec (op : Op) : M B (option error) :=
  match op with
  | OpRegisterConfirmationsNtfn txid pkScript numConfs heightHint
      includeBlock reOrgChan =>
      r <- RegisterConfirmationsNtfn txid pkScript numConfs heightHint
             includeBlock reOrgChan ;;
      ret (third r)
  | OpRegisterBlockEpochNtfn => r <- RegisterBlockEpochNtfn ;; ret (third r)
  | OpGetBlock hash => r <- GetBlock hash ;; ret (err_of r)
  | OpGetBlockHeader hash => r <- GetBlockHeader hash ;; ret (err_of r)
  | OpGetBlockHash blockHeight =>
      r <- GetBlockHash blockHeight ;; ret (err_of r)
  | OpGetBlockHeaderSupported => _ <- GetBlockHeaderSupported ;; ret None
  | OpVerifyBlock header height => VerifyBlock header height
  | OpCurrentHeight => r <- CurrentHeight ;; ret (err_of r)
  | OpGetBlockTimestamp height => _ <- GetBlockTimestamp height ;; ret None
  | OpPublishTransaction tx => PublishTransaction tx
  | OpEstimateFee confTarget => r <- EstimateFee confTarget ;; ret (err_of r)
  end.

Fixpoint run_ops (ops : list Op) : M B unit :=
  match ops with
  | [] => ret tt
  | op :: rest => exec op ;;; run_ops rest
  end.



(** The ways a timestamp lookup fails: no height, or a miss in the cache
    followed by a fetch that the node answers with an error. *)
Inductive lookup_fails (height : Z) (w : World B) : Prop :=
| fails_no_height : height = 0 -> lookup_fails height w
| fails_hash (e : error) (n1 : B) :
    height <> 0 ->
    lru.find height (lru.ll (blockTimestampCache (bridge w))) = None ->
    ChainKit_GetBlockHash lnd (int64 height) (node w) = (inl e, n1) ->
    lookup_fails height w
| fails_header (hash : Hash) (e : error) (n1 n2 : B) :
    height <> 0 ->
    lru.find height (lru.ll (blockTimestampCache (bridge w))) = None ->
    ChainKit_GetBlockHash lnd (int64 height) (node w) = (inr hash, n1) ->
    fst (fst (GetBlockHeaderSupported w)) = true ->
    ChainKit_GetBlockHeader lnd hash n1 = (inl e, n2) ->
    lookup_fails height w
| fails_block (hash : Hash) (e : error) (n1 n2 : B) :
    height <> 0 ->
    lru.find height (lru.ll (blockTimestampCache (bridge w))) = None ->
    ChainKit_GetBlockHash lnd (int64 height) (node w) = (inr hash, n1) ->
    fst (fst (GetBlockHeaderSupported w)) = false ->
    ChainKit_GetBlock lnd hash n1 = (inl e, n2) ->
    lookup_fails height w.



(** The successful lookups: a miss in the cache, then the hash, then the
    header itself or the block that holds it. *)
Inductive lookup_fetches (height : Z) (w : World B) (header : BlockHeader)
  : Prop :=
| fetches_header (hash : Hash) (n1 n2 : B) :
    height <> 0 ->
    lru.find height (lru.ll (blockTimestampCache (bridge w))) = None ->
    ChainKit_GetBlockHash lnd (int64 height) (node w) = (inr hash, n1) ->
    fst (fst (GetBlockHeaderSupported w)) = true ->
    ChainKit_GetBlockHeader lnd hash n1 = (inr header, n2) ->
    lookup_fetches height w header
| fetches_block (hash : Hash) (block : MsgBlock) (n1 n2 : B) :
    height <> 0 ->
    lru.find height (lru.ll (blockTimestampCache (bridge w))) = None ->
    ChainKit_GetBlockHash lnd (int64 height) (node w) = (inr hash, n1) ->
    fst (fst (GetBlockHeaderSupported w)) = false ->
    ChainKit_GetBlock lnd hash n1 = (inr block, n2) ->
    Header block = header ->
    lookup_fetches height w header.

(** 1 while the capability is still unknown, 0 once it is settled. *)
Definition unknown (l : LndRpcChainBridge) : Z :=
  if is_nil (getBlockHeaderSupported l) then 1 else 0.

(** What every method keeps, from the world [w] it starts in to the world
    [w'] it ends in with trace [t]: a settled capability flag, at most one
    version check and only while the flag is unsettled, the capacity of
    the cache, the type of its values and its bound. *)
Record step_ok (w w' : World B) (t : list Event) : Prop := {
  ok_flag : forall b,
    getBlockHeaderSupported (bridge w) = Some b ->
    getBlockHeaderSupported (bridge w') = Some b;
  ok_checks :
    version_checks t + unknown (bridge w') <= unknown (bridge w);
  ok_capacity :
    lru.capacity (blockTimestampCache (bridge w')) =
    lru.capacity (blockTimestampCache (bridge w));
  ok_typed :
    lru.typed (blockTimestampCache (bridge w)) ->
    lru.typed (blockTimestampCache (bridge w'));
  ok_bounded :
    1 <= lru.capacity (blockTimestampCache (bridge w)) ->
    lru.bounded (blockTimestampCache (bridge w)) ->
    lru.bounded (blockTimestampCache (bridge w'))
}.

Definition respects {A} (m : M B A) : Prop :=
  forall w, let '(_, w', t) := m w in step_ok w w' t.


(** What the version comparison of [GetBlockHeaderSupported] gives for
    this node. *)
Definition version_ok : bool :=
  is_nil (AssertVersionCompatible (LndVersion lnd)
            getBlockHeaderMinimalVersion).

(** The error [VerifyBlock] makes when the hashes differ. *)
Definition mismatch_error (height : Z) (hash expectedHash : Hash) : error :=
  Errorf
    "block hash and block height mismatch; (height: %d, hashAtHeight: %s, expectedHash: %s)"
    [ArgD height; ArgS hash; ArgS expectedHash].

(** The [error] a wrapping method returns for the node's answer [r]. *)
Definition wrap_err {A} (format : string) (r : error + A) : option error :=
  match r with
  | inl e => Some (Errorf format [ArgW e])
  | inr _ => None
  end.

(** The three requests that read the chain by hash or height. *)
Definition is_chain_query (ev : Event) : bool :=
  match ev with
  | CallGetBlock _ | CallGetBlockHeader _ | CallGetBlockHash _ => true
  | _ => false
  end.

(** The one method that reads or writes the timestamp cache. *)
Definition touches_cache (op : Op) : bool :=
  match op with
  | OpGetBlockTimestamp _ => true
  | _ => false
  end.

(** The capability flag is as it was, or was unset and now holds the
    answer of the version comparison. *)
Definition flag_step (w w' : World B) : Prop :=
  getBlockHeaderSupported (bridge w') = getBlockHeaderSupported (bridge w) \/
  (getBlockHeaderSupported (bridge w) = None /\
   getBlockHeaderSupported (bridge w') = Some version_ok).

(** The transactions a trace hands to the node for broadcast, with their
    labels, in order. *)
Fixpoint published (t : list Event) : list (MsgTx * string) :=
  match t with
  | [] => []
  | CallPublishTransaction tx label :: rest => (tx, label) :: published rest
  | _ :: rest => published rest
  end.

(** The transactions a sequence of calls asks to publish, in order. *)
Fixpoint requested (ops : list Op) : list MsgTx :=
  match ops with
  | [] => []
  | OpPublishTransaction tx :: rest => tx :: requested rest
  | _ :: rest => requested rest
  end.

(** A [uint32] read as an [int32]: values from 2^31 on come out
    negative. *)
Definition narrowed (x : Z) : Z := if x <? 2 ^ 31 then x else x - 2 ^ 32.

(** * Properties *)

(** ** Integer conversions *)

Lemma uint32_range (x : Z) : 0 <= uint32 x < 2 ^ 32.
Proof. unfold uint32. apply Z.mod_pos_bound. lia. Qed.

Lemma uint32_small (x : Z) : 0 <= x < 2 ^ 32 -> uint32 x = x.
Proof. intros Hx. unfold uint32. apply Z.mod_small. exact Hx. Qed.

Lemma int64_small (x : Z) : - 2 ^ 63 <= x < 2 ^ 63 -> int64 x = x.
Proof.
  intros Hx. unfold int64.
  rewrite Z.mod_small by lia. lia.
Qed.

Lemma int64_of_uint32 (x : Z) : 0 <= x < 2 ^ 32 -> int64 x = x.
Proof. intros Hx. apply int64_small. lia. Qed.

(** ** Errors *)

Lemma adds_context_Errorf_W (format : string) (e : error) :
  adds_context e (Errorf format [ArgW e]).
Proof. exists format, [ArgW e]. split; reflexivity. Qed.


#[local] Hint Resolve adds_context_Errorf_W : core.

(** ** Traces *)

Lemma rpcs_app (t1 t2 : list Event) : rpcs (t1 ++ t2) = rpcs t1 ++ rpcs t2.
Proof. unfold rpcs. apply filter_app. Qed.

Lemma version_checks_app (t1 t2 : list Event) :
  version_checks (t1 ++ t2) = version_checks t1 + version_checks t2.
Proof.
  unfold version_checks. rewrite filter_app, length_app. lia.
Qed.

Lemma version_checks_nonneg (t : list Event) : 0 <= version_checks t.
Proof. unfold version_checks. lia. Qed.

(** ** The cache *)

Lemma remove_length_le (key : Z) (l : list (Z * Z)) :
  (length (lru.remove key l) <= length l)%nat.
Proof.
  induction l as [| [k v] rest IH]; cbn; [lia |].
  destruct (k =? key); cbn; lia.
Qed.

Lemma find_remove_length (key v : Z) (l : list (Z * Z)) :
  lru.find key l = Some v -> S (length (lru.remove key l)) = length l.
Proof.
  induction l as [| [k v0] rest IH]; cbn; [discriminate |].
  destruct (k =? key); cbn; [reflexivity |].
  intros Hf. rewrite (IH Hf). reflexivity.
Qed.


Lemma remove_Forall (P : Z * Z -> Prop) (key : Z) (l : list (Z * Z)) :
  Forall P l -> Forall P (lru.remove key l).
Proof.
  induction 1 as [| [k v] rest Hkv Hrest IH]; cbn; [constructor |].
  destruct (k =? key); [assumption | constructor; assumption].
Qed.

Lemma find_Forall (P : Z * Z -> Prop) (key v : Z) (l : list (Z * Z)) :
  Forall P l -> lru.find key l = Some v -> P (key, v).
Proof.
  induction 1 as [| [k v0] rest Hkv Hrest IH]; cbn; [discriminate |].
  destruct (Z.eqb_spec k key) as [-> | _]; [| assumption].
  intros [= <-]. assumption.
Qed.

Lemma removelast_Forall {A} (P : A -> Prop) (l : list A) :
  Forall P l -> Forall P (removelast l).
Proof.
  induction 1 as [| a rest Ha Hrest IH]; cbn; [constructor |].
  destruct rest; [constructor | constructor; assumption].
Qed.

Lemma removelast_length_S {A} (l : list A) :
  l <> [] -> S (length (removelast l)) = length l.
Proof.
  induction l as [| a rest IH]; [congruence |].
  intros _. destruct rest as [| b rest']; [reflexivity |].
  cbn [removelast length] in *. rewrite IH by discriminate. reflexivity.
Qed.

Lemma Get_capacity (key : Z) (c : lru.Cache) :
  lru.capacity (snd (lru.Get key c)) = lru.capacity c.
Proof. unfold lru.Get. destruct (lru.find key (lru.ll c)); reflexivity. Qed.

Lemma Get_length (key : Z) (c : lru.Cache) :
  lru.Len (snd (lru.Get key c)) = lru.Len c.
Proof.
  unfold lru.Get, lru.Len.
  destruct (lru.find key (lru.ll c)) as [v |] eqn:Hf; [| reflexivity].
  cbn [snd lru.ll length]. rewrite (find_remove_length _ _ _ Hf). reflexivity.
Qed.

Lemma Get_typed (key : Z) (c : lru.Cache) :
  lru.typed c -> lru.typed (snd (lru.Get key c)).
Proof.
  unfold lru.Get, lru.typed. intros Ht.
  destruct (lru.find key (lru.ll c)) as [v |] eqn:Hf; [| assumption].
  cbn. constructor.
  - exact (find_Forall _ _ _ _ Ht Hf).
  - apply remove_Forall. assumption.
Qed.

Lemma Get_hit_typed (key v : Z) (c : lru.Cache) :
  lru.typed c -> fst (lru.Get key c) = Some v -> is_uint32 v.
Proof.
  unfold lru.Get, lru.typed. intros Ht.
  destruct (lru.find key (lru.ll c)) as [v0 |] eqn:Hf; [| discriminate].
  intros [= <-]. exact (find_Forall _ _ _ _ Ht Hf).
Qed.


Lemma Put_typed (key value : Z) (c : lru.Cache) :
  is_uint32 value -> lru.typed c -> lru.typed (snd (lru.Put key value c)).
Proof.
  unfold lru.Put, lru.typed. intros Hv Ht. cbn. constructor; [exact Hv |].
  destruct (lru.capacity c <=? _).
  - apply removelast_Forall, remove_Forall, Ht.
  - apply remove_Forall, Ht.
Qed.

Lemma Put_bounded (key value : Z) (c : lru.Cache) :
  1 <= lru.capacity c -> lru.bounded c ->
  lru.bounded (snd (lru.Put key value c)).
Proof.
  unfold lru.Put, lru.bounded, lru.Len. intros Hcap Hb. cbn [snd lru.ll lru.capacity].
  pose proof (remove_length_le key (lru.ll c)) as Hle.
  destruct (Z.leb_spec (lru.capacity c)
              (Z.of_nat (length (lru.remove key (lru.ll c))))) as [Hfull | Hroom].
  - assert (Hne : lru.remove key (lru.ll c) <> []).
    { intros Hnil. rewrite Hnil in Hfull. cbn in Hfull. lia. }
    pose proof (removelast_length_S _ Hne) as Hlen.
    cbn [length]. lia.
  - cbn [length]. lia.
Qed.

Lemma Put_find (key value : Z) (c : lru.Cache) :
  lru.find key (lru.ll (snd (lru.Put key value c))) = Some value.
Proof. unfold lru.Put. cbn. rewrite Z.eqb_refl. reflexivity. Qed.


(** ** What each method computes *)

Lemma bind_run {A C} (m : M B A) (k : A -> M B C) (w : World B) :
  bind m k w =
  let '(a, w1, t1) := m w in
  let '(c, w2, t2) := k a w1 in
  (c, w2, t1 ++ t2).
Proof. reflexivity. Qed.

Lemma GetBlock_run (hash : Hash) (w : World B) :
  GetBlock hash w =
  let r := ChainKit_GetBlock lnd hash (node w) in
  (match fst r with
   | inl err => inl (Errorf "unable to retrieve block: %w" [ArgW err])
   | inr block => inr block
   end,
   {| bridge := bridge w; node := snd r |}, [CallGetBlock hash]).
Proof.
  unfold GetBlock, bind, rpc, ret.
  destruct (ChainKit_GetBlock lnd hash (node w)) as [[e | block] n];
    reflexivity.
Qed.

Lemma GetBlockHeader_run (hash : Hash) (w : World B) :
  GetBlockHeader hash w =
  let r := ChainKit_GetBlockHeader lnd hash (node w) in
  (match fst r with
   | inl err => inl (Errorf "unable to retrieve block header: %w" [ArgW err])
   | inr header => inr header
   end,
   {| bridge := bridge w; node := snd r |}, [CallGetBlockHeader hash]).
Proof.
  unfold GetBlockHeader, bind, rpc, ret.
  destruct (ChainKit_GetBlockHeader lnd hash (node w)) as [[e | header] n];
    reflexivity.
Qed.

Lemma GetBlockHash_run (blockHeight : Z) (w : World B) :
  GetBlockHash blockHeight w =
  let r := ChainKit_GetBlockHash lnd blockHeight (node w) in
  (match fst r with
   | inl err => inl (Errorf "unable to retrieve block hash: %w" [ArgW err])
   | inr blockHash => inr blockHash
   end,
   {| bridge := bridge w; node := snd r |}, [CallGetBlockHash blockHeight]).
Proof.
  unfold GetBlockHash, bind, rpc, ret.
  destruct (ChainKit_GetBlockHash lnd blockHeight (node w)) as [[e | h] n];
    reflexivity.
Qed.

Lemma rpc_run {A} (ev : Event) (f : B -> A * B) (w : World B) :
  rpc ev f w =
  (fst (f (node w)), {| bridge := bridge w; node := snd (f (node w)) |}, [ev]).
Proof. unfold rpc. destruct (f (node w)); reflexivity. Qed.

(** The value of the capability check, read off the flag. *)
Lemma GetBlockHeaderSupported_unfold (w : World B) :
  GetBlockHeaderSupported w =
  match getBlockHeaderSupported (bridge w) with
  | Some supported => (supported, w, [])
  | None =>
      let supported :=
        is_nil (AssertVersionCompatible (LndVersion lnd)
                  getBlockHeaderMinimalVersion) in
      (supported,
       {| bridge := {| getBlockHeaderSupported := Some supported;
                       blockTimestampCache :=
                         blockTimestampCache (bridge w) |};
          node := node w |},
       [EvAssertVersionCompatible (LndVersion lnd)
          getBlockHeaderMinimalVersion])
  end.
Proof.
  unfold GetBlockHeaderSupported, bind, get_bridge.
  destruct (getBlockHeaderSupported (bridge w)); reflexivity.
Qed.

(** The check touches neither the node nor the cache and issues no
    request; its answer depends on the bridge alone. *)
Lemma GetBlockHeaderSupported_frame (w : World B) :
  let '(s, w', t) := GetBlockHeaderSupported w in
  node w' = node w /\
  blockTimestampCache (bridge w') = blockTimestampCache (bridge w) /\
  getBlockHeaderSupported (bridge w') = Some s /\
  rpcs t = [] /\
  version_checks t =
    (if is_nil (getBlockHeaderSupported (bridge w)) then 1 else 0).
Proof.
  rewrite GetBlockHeaderSupported_unfold.
  destruct w as [[flag cache] n]; cbn.
  destruct flag; cbn; auto.
Qed.

Lemma GetBlockHeaderSupported_same_bridge (w1 w2 : World B) :
  bridge w1 = bridge w2 ->
  fst (fst (GetBlockHeaderSupported w1)) =
  fst (fst (GetBlockHeaderSupported w2)).
Proof.
  intros Hb. rewrite !GetBlockHeaderSupported_unfold, Hb.
  destruct (getBlockHeaderSupported (bridge w2)); reflexivity.
Qed.

(** C3: with height 0, [VerifyBlock] issues the one request [GetBlock]
    for the header's hash, so never [GetBlockHash], and it returns no
    error exactly when the node answers that request with a block. *)
Theorem VerifyBlock_zero_height :
  forall (header : BlockHeader) (w : World B),
    let '(res, _, t) := VerifyBlock header 0 w in
    t = [CallGetBlock (BlockHash header)] /\
    (res = None <->
     exists block,
       fst (ChainKit_GetBlock lnd (BlockHash header) (node w)) = inr block) /\
    (forall blockHeight, ~ In (CallGetBlockHash blockHeight) t).
Proof.
  intros header w.
  unfold VerifyBlock, GetBlock, bind, rpc, ret; cbn.
  destruct (ChainKit_GetBlock lnd (BlockHash header) (node w)) as [[e | block] n1];
    cbn; (split; [reflexivity | split]).
  - split; [discriminate | intros [block Hb]; discriminate].
  - intros h [Hin | []]. discriminate.
  - split; [intros _; eauto | reflexivity].
  - intros h [Hin | []]. discriminate.
Qed.

(** C1: for a height above 0, when the node answers [GetBlockHash] with
    a hash other than the header's, [VerifyBlock] stops after that one
    request with the mismatch error, which carries the height, the hash
    at that height and the header's hash, and which wraps no error of
    the node. *)
Theorem VerifyBlock_height_mismatch :
  forall (header : BlockHeader) (height : Z) (w : World B)
         (hash : Hash) (n1 : B),
    0 < height < 2 ^ 32 ->
    ChainKit_GetBlockHash lnd height (node w) = (inr hash, n1) ->
    hash <> BlockHash header ->
    exists r,
      VerifyBlock header height w =
        (Some r, {| bridge := bridge w; node := n1 |},
         [CallGetBlockHash height]) /\
      r = Errorf
            "block hash and block height mismatch; (height: %d, hashAtHeight: %s, expectedHash: %s)"
            [ArgD height; ArgS hash; ArgS (BlockHash header)] /\
      Unwrap r = None /\
      (forall e, ~ adds_context e r).
Proof.
  intros header height w hash n1 Hh Hrpc Hneq.
  eexists. split; [| split; [reflexivity | split]].
  - unfold VerifyBlock.
    destruct (Z.eqb_spec height 0) as [-> | _]; [lia |].
    rewrite int64_of_uint32 by lia.
    unfold GetBlockHash, bind, rpc, ret. rewrite Hrpc. cbn.
    destruct (Hash_eq_dec hash (BlockHash header)) as [Heq | _];
      [contradiction | reflexivity].
  - reflexivity.
  - intros e (format & args & _ & Hw). discriminate Hw.
Qed.

(** C2: for a height above 0 whose hash at the node is the header's,
    [VerifyBlock] issues, after [GetBlockHash], exactly one more
    request: [GetBlockHeader] when the capability check says the node
    has it, [GetBlock] when not; it returns no error exactly when the
    node answers that request with a value. *)
Theorem VerifyBlock_presence_fetch :
  forall (header : BlockHeader) (height : Z) (w : World B) (n1 : B),
    0 < height < 2 ^ 32 ->
    ChainKit_GetBlockHash lnd height (node w) =
      (inr (BlockHash header), n1) ->
    let w1 := {| bridge := bridge w; node := n1 |} in
    let '(res, _, t) := VerifyBlock header height w in
    if fst (fst (GetBlockHeaderSupported w1)) then
      rpcs t = [CallGetBlockHash height;
                CallGetBlockHeader (BlockHash header)] /\
      (res = None <->
       exists h,
         fst (ChainKit_GetBlockHeader lnd (BlockHash header) n1) = inr h)
    else
      rpcs t = [CallGetBlockHash height; CallGetBlock (BlockHash header)] /\
      (res = None <->
       exists block,
         fst (ChainKit_GetBlock lnd (BlockHash header) n1) = inr block).
Proof.
  intros header height w n1 Hh Hrpc w1.
  unfold VerifyBlock.
  destruct (Z.eqb_spec height 0) as [-> | _]; [lia |].
  rewrite int64_of_uint32 by lia.
  rewrite bind_run, GetBlockHash_run, Hrpc. cbn [fst snd]. fold w1.
  destruct (Hash_eq_dec (BlockHash header) (BlockHash header)) as [_ | Hne];
    [| contradiction].
  rewrite bind_run.
  pose proof (GetBlockHeaderSupported_frame w1) as Hfr.
  destruct (GetBlockHeaderSupported w1) as [[s w2] t2].
  destruct Hfr as (Hnode & _ & _ & Hrp & _). cbn in Hnode. cbn [fst].
  destruct s; rewrite bind_run.
  - rewrite GetBlockHeader_run, Hnode.
    destruct (ChainKit_GetBlockHeader lnd (BlockHash header) n1)
      as [[e | h] n2]; cbn [fst snd err_of ret];
      rewrite !rpcs_app, Hrp; (split; [reflexivity |]).
    + split; [discriminate | intros [h Hh']; discriminate].
    + split; [intros _; eauto | reflexivity].
  - rewrite GetBlock_run, Hnode.
    destruct (ChainKit_GetBlock lnd (BlockHash header) n1)
      as [[e | block] n2]; cbn [fst snd err_of ret];
      rewrite !rpcs_app, Hrp; (split; [reflexivity |]).
    + split; [discriminate | intros [h Hh']; discriminate].
    + split; [intros _; eauto | reflexivity].
Qed.

(** ** What every method keeps *)

Lemma step_ok_refl (w : World B) : step_ok w w [].
Proof.
  constructor; auto.
  change (version_checks []) with 0. lia.
Qed.

Lemma step_ok_trans (w w1 w2 : World B) (t1 t2 : list Event) :
  step_ok w w1 t1 -> step_ok w1 w2 t2 -> step_ok w w2 (t1 ++ t2).
Proof.
  intros [F1 C1 K1 T1 B1] [F2 C2 K2 T2 B2]. constructor.
  - auto.
  - rewrite version_checks_app. lia.
  - congruence.
  - auto.
  - intros Hcap Hb. apply B2; [rewrite K1; assumption | auto].
Qed.

Lemma respects_ret {A} (a : A) : respects (ret a).
Proof. intros w. apply step_ok_refl. Qed.

Lemma respects_bind {A C} (m : M B A) (k : A -> M B C) :
  respects m -> (forall a, respects (k a)) -> respects (bind m k).
Proof.
  intros Hm Hk w. rewrite bind_run.
  specialize (Hm w). destruct (m w) as [[a w1] t1].
  specialize (Hk a w1). destruct (k a w1) as [[c w2] t2].
  eapply step_ok_trans; eassumption.
Qed.

Lemma respects_rpc {A} (ev : Event) (f : B -> A * B) :
  is_version_check ev = false -> respects (rpc ev f).
Proof.
  intros Hev w. rewrite rpc_run. constructor; cbn; auto.
  unfold version_checks. cbn. rewrite Hev. cbn. lia.
Qed.

Lemma respects_emit (ev : Event) :
  is_version_check ev = false -> respects (emit ev).
Proof.
  intros Hev w. unfold emit. constructor; auto.
  unfold version_checks. cbn. rewrite Hev. cbn. lia.
Qed.

Lemma respects_GetBlockHeaderSupported : respects GetBlockHeaderSupported.
Proof.
  intros w. rewrite GetBlockHeaderSupported_unfold.
  destruct w as [[[b |] cache] n]; cbn.
  - apply step_ok_refl.
  - constructor; cbn; auto; [discriminate | unfold unknown; cbn; lia].
Qed.

Lemma respects_cache_get (key : Z) : respects (cache_get key).
Proof.
  intros w. unfold cache_get.
  pose proof (Get_capacity key (blockTimestampCache (bridge w))) as Hc.
  pose proof (Get_length key (blockTimestampCache (bridge w))) as Hl.
  pose proof (Get_typed key (blockTimestampCache (bridge w))) as Ht.
  destruct (lru.Get key (blockTimestampCache (bridge w))) as [r c].
  cbn [snd] in *. constructor; cbn; auto.
  - change (version_checks []) with 0. unfold unknown. cbn. lia.
  - unfold lru.bounded. intros _ Hb. rewrite Hl, Hc. exact Hb.
Qed.

Lemma respects_cache_put (key value : Z) :
  is_uint32 value -> respects (cache_put key value).
Proof.
  intros Hv w. unfold cache_put.
  pose proof (Put_typed key value (blockTimestampCache (bridge w)) Hv) as Ht.
  pose proof (Put_bounded key value (blockTimestampCache (bridge w))) as Hb.
  destruct (lru.Put key value (blockTimestampCache (bridge w))) as [r c] eqn:HP.
  assert (Hc : lru.capacity c = lru.capacity (blockTimestampCache (bridge w))).
  { unfold lru.Put in HP. injection HP as _ <-. reflexivity. }
  cbn [snd] in *. constructor; cbn; auto.
  change (version_checks []) with 0. unfold unknown. cbn. lia.
Qed.

Lemma respects_store_timestamp (height : Z) (header : BlockHeader) :
  respects (store_timestamp height header).
Proof.
  unfold store_timestamp. apply respects_bind.
  - apply respects_cache_put. unfold cacheableTimestamp. apply uint32_range.
  - intros _. apply respects_ret.
Qed.

Ltac respects_step :=
  first
    [ apply respects_ret
    | apply respects_rpc; reflexivity
    | apply respects_emit; reflexivity
    | apply respects_GetBlockHeaderSupported
    | apply respects_cache_get
    | apply respects_store_timestamp
    | apply respects_bind; [| intros ?]
    | match goal with
      | |- respects (match ?x with _ => _ end) => destruct x
      end ].

Ltac respects_tac := repeat respects_step.

Lemma respects_GetBlock (hash : Hash) : respects (GetBlock hash).
Proof. unfold GetBlock. respects_tac. Qed.

Lemma respects_GetBlockHeader (hash : Hash) : respects (GetBlockHeader hash).
Proof. unfold GetBlockHeader. respects_tac. Qed.

Lemma respects_GetBlockHash (blockHeight : Z) :
  respects (GetBlockHash blockHeight).
Proof. unfold GetBlockHash. respects_tac. Qed.

Lemma respects_VerifyBlock (header : BlockHeader) (height : Z) :
  respects (VerifyBlock header height).
Proof.
  unfold VerifyBlock.
  pose proof respects_GetBlock. pose proof respects_GetBlockHeader.
  pose proof respects_GetBlockHash.
  respects_tac; auto.
Qed.

Lemma respects_GetBlockTimestamp (height : Z) :
  respects (GetBlockTimestamp height).
Proof.
  unfold GetBlockTimestamp.
  pose proof respects_GetBlockHeader.
  respects_tac; auto.
Qed.

Lemma respects_exec (op : Op) : respects (exec op).
Proof.
  pose proof respects_GetBlock. pose proof respects_GetBlockHeader.
  pose proof respects_GetBlockHash. pose proof respects_VerifyBlock.
  pose proof respects_GetBlockTimestamp.
  destruct op; cbn [exec];
    unfold RegisterConfirmationsNtfn, RegisterBlockEpochNtfn, CurrentHeight,
      PublishTransaction, EstimateFee;
    respects_tac; auto.
Qed.

Lemma respects_run_ops (ops : list Op) : respects (run_ops ops).
Proof.
  induction ops as [| op rest IH]; cbn [run_ops].
  - apply respects_ret.
  - apply respects_bind; [apply respects_exec | intros _; exact IH].
Qed.

(** ** The capability flag *)

(** C4: the first call of [GetBlockHeaderSupported] compares the versions
    (once, and only when the flag is unset) and sets the flag to the
    answer; through any later calls on the bridge the flag keeps that
    value, the versions are not compared again, and the next call returns
    the stored answer and does nothing else; so whatever is called on a
    bridge, the versions are compared at most once. *)
Theorem capability_checked_once :
  forall (w : World B) (ops : list Op),
    (let '(_, _, t) := run_ops ops w in version_checks t <= 1) /\
    (let '(s, w1, t1) := GetBlockHeaderSupported w in
     let '(_, w2, t2) := run_ops ops w1 in
     t1 = (if is_nil (getBlockHeaderSupported (bridge w))
           then [EvAssertVersionCompatible (LndVersion lnd)
                   getBlockHeaderMinimalVersion]
           else []) /\
     getBlockHeaderSupported (bridge w1) = Some s /\
     getBlockHeaderSupported (bridge w2) = Some s /\
     version_checks t2 = 0 /\
     GetBlockHeaderSupported w2 = (s, w2, [])).
Proof.
  intros w ops. split.
  - pose proof (respects_run_ops ops w) as H.
    destruct (run_ops ops w) as [[u w'] t]. destruct H as [_ Hc _ _ _].
    unfold unknown in Hc.
    destruct (is_nil (getBlockHeaderSupported (bridge w)));
      destruct (is_nil (getBlockHeaderSupported (bridge w'))); lia.
  - assert (Hfirst :
      let '(s, w1, t1) := GetBlockHeaderSupported w in
      t1 = (if is_nil (getBlockHeaderSupported (bridge w))
            then [EvAssertVersionCompatible (LndVersion lnd)
                    getBlockHeaderMinimalVersion]
            else []) /\
      getBlockHeaderSupported (bridge w1) = Some s).
    { rewrite GetBlockHeaderSupported_unfold.
      destruct (getBlockHeaderSupported (bridge w)) eqn:Hf; cbn; auto. }
    destruct (GetBlockHeaderSupported w) as [[s w1] t1].
    destruct Hfirst as [Ht1 Hs1].
    pose proof (respects_run_ops ops w1) as H.
    destruct (run_ops ops w1) as [[u w2] t2]. destruct H as [Hf Hc _ _ _].
    specialize (Hf s Hs1).
    repeat split; try assumption.
    + pose proof (version_checks_nonneg t2).
      unfold unknown in Hc. rewrite Hs1, Hf in Hc. cbn in Hc. lia.
    + rewrite GetBlockHeaderSupported_unfold, Hf. reflexivity.
Qed.

(** ** Timestamps *)

(** C5: a timestamp lookup that fails returns 0, there being no error to
    return: for height 0 at once, with no request and nothing changed;
    after a miss in the cache when the node answers [GetBlockHash],
    [GetBlockHeader] or [GetBlock] with an error. *)
Theorem GetBlockTimestamp_failure_is_zero :
  forall (height : Z) (w : World B),
    lookup_fails height w ->
    exists w' t,
      GetBlockTimestamp height w = (0, w', t) /\
      (height = 0 -> w' = w /\ t = []).
Proof.
  intros height w H.
  destruct w as [[flag cache] n].
  destruct H as [-> | e n1 Hh Hfind Hrpc
                 | hash e n1 n2 Hh Hfind Hrpc Hsup Hhdr
                 | hash e n1 n2 Hh Hfind Hrpc Hsup Hblk];
    cbn [bridge node blockTimestampCache] in *.
  - do 2 eexists. split; [reflexivity | auto].
  - unfold GetBlockTimestamp.
    destruct (Z.eqb_spec height 0) as [| _]; [contradiction |].
    rewrite bind_run. unfold cache_get, lru.Get. cbn. rewrite Hfind.
    rewrite bind_run, rpc_run. cbn. rewrite Hrpc. cbn.
    do 2 eexists. split; [reflexivity | contradiction].
  - unfold GetBlockTimestamp.
    destruct (Z.eqb_spec height 0) as [| _]; [contradiction |].
    rewrite GetBlockHeaderSupported_unfold in Hsup.
    rewrite bind_run. unfold cache_get, lru.Get. cbn. rewrite Hfind.
    rewrite bind_run, rpc_run. cbn. rewrite Hrpc. cbn.
    rewrite bind_run, GetBlockHeaderSupported_unfold. cbn in *.
    destruct flag as [b |]; cbn in *; rewrite Hsup;
      rewrite bind_run, GetBlockHeader_run; cbn; rewrite Hhdr; cbn;
      do 2 eexists; (split; [reflexivity | contradiction]).
  - unfold GetBlockTimestamp.
    destruct (Z.eqb_spec height 0) as [| _]; [contradiction |].
    rewrite GetBlockHeaderSupported_unfold in Hsup.
    rewrite bind_run. unfold cache_get, lru.Get. cbn. rewrite Hfind.
    rewrite bind_run, rpc_run. cbn. rewrite Hrpc. cbn.
    rewrite bind_run, GetBlockHeaderSupported_unfold. cbn in *.
    destruct flag as [b |]; cbn in *; rewrite Hsup;
      rewrite bind_run, rpc_run; cbn; rewrite Hblk; cbn;
      do 2 eexists; (split; [reflexivity | contradiction]).
Qed.

(** C6: for a height other than 0 that the cache holds, the lookup
    returns the cached timestamp; it issues no request, leaves the node
    and the capability flag as they were, and the entry stays cached. *)
Theorem GetBlockTimestamp_cached :
  forall (height : Z) (w : World B) (v : Z),
    0 < height < 2 ^ 32 ->
    lru.typed (blockTimestampCache (bridge w)) ->
    lru.find height (lru.ll (blockTimestampCache (bridge w))) = Some v ->
    exists c',
      GetBlockTimestamp height w =
        (v,
         {| bridge :=
              {| getBlockHeaderSupported := getBlockHeaderSupported (bridge w);
                 blockTimestampCache := c' |};
            node := node w |},
         []) /\
      lru.find height (lru.ll c') = Some v.
Proof.
  intros height w v Hh Ht Hfind.
  unfold GetBlockTimestamp.
  destruct (Z.eqb_spec height 0) as [-> | _]; [lia |].
  rewrite bind_run. unfold cache_get, lru.Get. rewrite Hfind.
  cbn [ret]. rewrite int64_of_uint32.
  - eexists. split; [reflexivity |].
    cbn. rewrite Z.eqb_refl. reflexivity.
  - exact (find_Forall _ _ _ _ Ht Hfind).
Qed.

Lemma store_timestamp_run (height : Z) (header : BlockHeader) (w : World B) :
  let '(ts, w', t) := store_timestamp height header w in
  ts = Timestamp header mod 2 ^ 32 /\
  lru.find height (lru.ll (blockTimestampCache (bridge w'))) =
    Some (Timestamp header mod 2 ^ 32) /\
  t = [].
Proof.
  unfold store_timestamp. rewrite bind_run. unfold cache_put, lru.Put, ret.
  cbn. rewrite Z.eqb_refl. unfold cacheableTimestamp.
  rewrite (uint32_small (uint32 _)) by apply uint32_range.
  rewrite int64_of_uint32 by apply uint32_range.
  repeat split.
Qed.

Lemma GetBlockTimestamp_typed_range (height : Z) (w : World B) :
  lru.typed (blockTimestampCache (bridge w)) ->
  0 <= fst (fst (GetBlockTimestamp height w)) < 2 ^ 32.
Proof.
  intros Ht.
  assert (Hstore : forall h hdr w0,
             0 <= fst (fst (store_timestamp h hdr w0)) < 2 ^ 32).
  { intros h hdr w0. pose proof (store_timestamp_run h hdr w0) as Hs.
    destruct (store_timestamp h hdr w0) as [[ts w'] t].
    destruct Hs as [-> _]. cbn. apply Z.mod_pos_bound. lia. }
  unfold GetBlockTimestamp.
  destruct (height =? 0); [cbn; lia |].
  rewrite bind_run. unfold cache_get.
  pose proof (Get_hit_typed height) as Hhit.
  specialize (fun v => Hhit v _ Ht).
  destruct (lru.Get height (blockTimestampCache (bridge w))) as [[v |] c].
  - cbn. rewrite int64_of_uint32; apply Hhit; reflexivity.
  - rewrite bind_run, rpc_run.
    destruct (fst (ChainKit_GetBlockHash lnd (int64 height) _)) as [e | hash];
      [cbn; lia |].
    rewrite bind_run.
    match goal with
    | |- context [GetBlockHeaderSupported ?w0] =>
        destruct (GetBlockHeaderSupported w0) as [[[|] w2] t2]
    end.
    + rewrite bind_run, GetBlockHeader_run.
      cbv zeta. destruct (fst (ChainKit_GetBlockHeader lnd hash (node w2)))
        as [e | hdr]; [cbn; lia |].
      match goal with
      | |- context [store_timestamp ?h ?hdr ?w0] =>
          specialize (Hstore h hdr w0);
          destruct (store_timestamp h hdr w0) as [[ts w3] t3]
      end.
      exact Hstore.
    + rewrite bind_run, rpc_run.
      destruct (fst (ChainKit_GetBlock lnd hash (node w2)))
        as [e | block]; [cbn; lia |].
      match goal with
      | |- context [store_timestamp ?h ?hdr ?w0] =>
          specialize (Hstore h hdr w0);
          destruct (store_timestamp h hdr w0) as [[ts w3] t3]
      end.
      exact Hstore.
Qed.

Lemma NewLndRpcChainBridge_typed :
  lru.typed (blockTimestampCache NewLndRpcChainBridge).
Proof. constructor. Qed.

Arguments store_timestamp : simpl never.

(** C10: whatever was called on a bridge since it was made, a timestamp
    lookup returns a number from 0 up to, not including, 2^32; on a
    successful fetch it returns the header's Unix time modulo 2^32, and
    that is also the value it puts in the cache. *)
Theorem GetBlockTimestamp_uint32 :
  (forall (ops : list Op) (n : B) (height : Z),
     let '(_, w, _) :=
       run_ops ops {| bridge := NewLndRpcChainBridge; node := n |} in
     0 <= fst (fst (GetBlockTimestamp height w)) < 2 ^ 32) /\
  (forall (height : Z) (w : World B) (header : BlockHeader),
     lookup_fetches height w header ->
     let '(ts, w', _) := GetBlockTimestamp height w in
     ts = Timestamp header mod 2 ^ 32 /\
     lru.find height (lru.ll (blockTimestampCache (bridge w'))) =
       Some (Timestamp header mod 2 ^ 32)).
Proof.
  split.
  - intros ops n height.
    pose proof (respects_run_ops ops
                  {| bridge := NewLndRpcChainBridge; node := n |}) as H.
    destruct (run_ops ops _) as [[u w] t]. destruct H as [_ _ _ Ht _].
    apply GetBlockTimestamp_typed_range, Ht, NewLndRpcChainBridge_typed.
  - intros height w header H.
    destruct w as [[flag cache] n].
    destruct H as [hash n1 n2 Hh Hfind Hrpc Hsup Hhdr
                  | hash block n1 n2 Hh Hfind Hrpc Hsup Hblk Hheader];
      cbn [bridge node blockTimestampCache] in *;
      unfold GetBlockTimestamp;
      (destruct (Z.eqb_spec height 0) as [| _]; [contradiction |]);
      rewrite GetBlockHeaderSupported_unfold in Hsup;
      rewrite bind_run; unfold cache_get, lru.Get; cbn; rewrite Hfind;
      rewrite bind_run, rpc_run; cbn; rewrite Hrpc; cbn;
      rewrite bind_run, GetBlockHeaderSupported_unfold; cbn in *.
    + destruct flag as [b |]; cbn in *; rewrite Hsup;
        rewrite bind_run, GetBlockHeader_run; cbn; rewrite Hhdr; cbn;
        match goal with
        | |- context [store_timestamp ?h ?hdr ?w0] =>
            pose proof (store_timestamp_run h hdr w0) as Hs;
            destruct (store_timestamp h hdr w0) as [[ts w3] t3]
        end; destruct Hs as (Hts & Hc & _); split; assumption.
    + destruct flag as [b |]; cbn in *; rewrite Hsup;
        rewrite bind_run, rpc_run; cbn; rewrite Hblk; cbn; rewrite Hheader;
        match goal with
        | |- context [store_timestamp ?h ?hdr ?w0] =>
            pose proof (store_timestamp_run h hdr w0) as Hs;
            destruct (store_timestamp h hdr w0) as [[ts w3] t3]
        end; destruct Hs as (Hts & Hc & _); split; assumption.
Qed.

(** ** The bound of the cache *)


(** ** Errors of the node *)


(** ** Messages *)

(** C9: [SendMessage] encodes the message into an empty buffer; when the
    encoder fails, it returns that error, wrapped, and sends nothing;
    when not, it issues the one request [SendCustomMessage] with the
    vertex of the peer's key, the message's type code and the bytes the
    encoder wrote, and returns what the node answers; a decoder that
    inverts the encoder gets the message back from those bytes. *)
Theorem SendMessage_envelope :
  forall (T : Type) (codec : Message T) (peer : PublicKey) (msg : T)
         (w : World B),
    0 <= MsgTypeOf msg < 2 ^ 16 ->
    (forall buf, Encode msg [] 0 = (buf, None) -> Decode buf 0 = inr msg) ->
    match Encode msg [] 0 with
    | (_, Some err) =>
        SendMessage peer msg w =
          (Some (Errorf "unable to encode message: %w" [ArgW err]), w, [])
    | (buf, None) =>
        let envelope :=
          {| Peer := NewVertex peer; MsgType := MsgTypeOf msg; Data := buf |} in
        SendMessage peer msg w =
          (fst (Client_SendCustomMessage lnd envelope (node w)),
           {| bridge := bridge w;
              node := snd (Client_SendCustomMessage lnd envelope (node w)) |},
           [CallSendCustomMessage envelope]) /\
        Decode (Data envelope) 0 = inr msg
    end.
Proof.
  intros T codec peer msg w Hty Hcodec.
  unfold SendMessage.
  destruct (Encode msg [] 0) as [buf [err |]] eqn:Henc.
  - reflexivity.
  - rewrite uint32_small by lia.
    unfold SendCustomMessage. rewrite rpc_run.
    split; [reflexivity | apply Hcodec; reflexivity].
Qed.

(** * Further properties *)

(** ** Integer narrowing *)

Lemma int32_of_uint32 (x : Z) :
  0 <= x < 2 ^ 32 ->
  int32 x = if x <? 2 ^ 31 then x else x - 2 ^ 32.
Proof.
  intros Hx. unfold int32.
  destruct (Z.ltb_spec x (2 ^ 31)) as [Hlt | Hge].
  - rewrite Z.mod_small by lia. lia.
  - replace (x + 2 ^ 31) with ((x - 2 ^ 31) + 1 * 2 ^ 32) by lia.
    rewrite Z.mod_add by lia. rewrite Z.mod_small by lia. lia.
Qed.

(** ** The outcomes of [VerifyBlock] *)

Lemma flag_step_refl (w : World B) : flag_step w w.
Proof. left. reflexivity. Qed.

Lemma flag_step_trans (w w1 w2 : World B) :
  flag_step w w1 -> flag_step w1 w2 -> flag_step w w2.
Proof.
  unfold flag_step. intros [H1 | [H1 H1']] [H2 | [H2 H2']].
  - left. congruence.
  - right. split; congruence.
  - right. split; congruence.
  - congruence.
Qed.

Lemma GetBlockHeaderSupported_flag_step (w : World B) :
  flag_step w (snd (fst (GetBlockHeaderSupported w))).
Proof.
  rewrite GetBlockHeaderSupported_unfold.
  destruct (getBlockHeaderSupported (bridge w)) eqn:Hf; cbn.
  - apply flag_step_refl.
  - right. split; [exact Hf | reflexivity].
Qed.

Lemma VerifyBlock_outcome (header : BlockHeader) (height : Z) (w : World B) :
  let bh := BlockHash header in
  let '(res, w', t) := VerifyBlock header height w in
  blockTimestampCache (bridge w') = blockTimestampCache (bridge w) /\
  flag_step w w' /\
  ((height = 0 /\
    t = [CallGetBlock bh] /\
    res = wrap_err "unable to retrieve block: %w"
            (fst (ChainKit_GetBlock lnd bh (node w)))) \/
   (height <> 0 /\
    match fst (ChainKit_GetBlockHash lnd (int64 height) (node w)) with
    | inl e =>
        t = [CallGetBlockHash (int64 height)] /\
        res = Some (Errorf "unable to retrieve block hash: %w" [ArgW e])
    | inr hash =>
        if Hash_eq_dec hash bh then
          let n1 := snd (ChainKit_GetBlockHash lnd (int64 height) (node w)) in
          if fst (fst (GetBlockHeaderSupported w)) then
            rpcs t = [CallGetBlockHash (int64 height); CallGetBlockHeader bh] /\
            res = wrap_err "unable to retrieve block header: %w"
                    (fst (ChainKit_GetBlockHeader lnd bh n1))
          else
            rpcs t = [CallGetBlockHash (int64 height); CallGetBlock bh] /\
            res = wrap_err "unable to retrieve block: %w"
                    (fst (ChainKit_GetBlock lnd bh n1))
        else
          t = [CallGetBlockHash (int64 height)] /\
          res = Some (mismatch_error height hash bh)
    end)).
Proof.
  intros bh. unfold VerifyBlock. fold bh.
  destruct (Z.eqb_spec height 0) as [-> | Hne].
  - rewrite bind_run, GetBlock_run. cbv zeta.
    destruct (fst (ChainKit_GetBlock lnd bh (node w))) as [e | block]; cbn;
      (split; [reflexivity | split; [left; reflexivity |]]);
      left; repeat split.
  - rewrite bind_run, GetBlockHash_run. cbv zeta.
    destruct (ChainKit_GetBlockHash lnd (int64 height) (node w))
      as [[e | hash] n1]; cbn [fst snd].
    + cbn. split; [reflexivity | split; [left; reflexivity |]].
      right. split; [exact Hne | split; reflexivity].
    + destruct (Hash_eq_dec hash bh) as [-> | Hneq].
      * rewrite bind_run.
        rewrite (GetBlockHeaderSupported_same_bridge w
                   {| bridge := bridge w; node := n1 |}) by reflexivity.
        pose proof (GetBlockHeaderSupported_frame
                      {| bridge := bridge w; node := n1 |}) as Hfr.
        pose proof (GetBlockHeaderSupported_flag_step
                      {| bridge := bridge w; node := n1 |}) as Hfs.
        destruct (GetBlockHeaderSupported {| bridge := bridge w; node := n1 |})
          as [[s w2] t2].
        destruct Hfr as (Hnode & Hcache & _ & Hrp & _).
        cbn in Hnode, Hcache, Hfs. cbn [fst].
        destruct s; rewrite bind_run.
        -- rewrite GetBlockHeader_run, Hnode. cbv zeta.
           destruct (fst (ChainKit_GetBlockHeader lnd bh n1)) as [e | h];
             cbn [fst snd err_of ret bridge wrap_err];
             rewrite !rpcs_app, Hrp;
             (split; [exact Hcache | split; [exact Hfs |]]);
             right; (split; [exact Hne | split; reflexivity]).
        -- rewrite GetBlock_run, Hnode. cbv zeta.
           destruct (fst (ChainKit_GetBlock lnd bh n1)) as [e | block];
             cbn [fst snd err_of ret bridge wrap_err];
             rewrite !rpcs_app, Hrp;
             (split; [exact Hcache | split; [exact Hfs |]]);
             right; (split; [exact Hne | split; reflexivity]).
      * cbn. split; [reflexivity | split; [left; reflexivity |]].
        right. split; [exact Hne | split; reflexivity].
Qed.

(** X1: when [VerifyBlock] returns no error for a height above 0, the
    node has answered [GetBlockHash] for that height with the header's own
    hash, and has then answered the presence fetch for that hash
    ([GetBlockHeader] when the capability check says so, [GetBlock] when
    not) with a value. *)
Theorem VerifyBlock_nil_sound :
  forall (header : BlockHeader) (height : Z) (w w' : World B)
         (t : list Event),
    0 < height < 2 ^ 32 ->
    VerifyBlock header height w = (None, w', t) ->
    exists n1,
      ChainKit_GetBlockHash lnd height (node w) =
        (inr (BlockHash header), n1) /\
      if fst (fst (GetBlockHeaderSupported w)) then
        exists h,
          fst (ChainKit_GetBlockHeader lnd (BlockHash header) n1) = inr h
      else
        exists block,
          fst (ChainKit_GetBlock lnd (BlockHash header) n1) = inr block.
Proof.
  intros header height w w' t Hh Hrun.
  pose proof (VerifyBlock_outcome header height w) as Hout.
  rewrite Hrun in Hout. cbv zeta in Hout.
  destruct Hout as (_ & _ & [[H0 _] | [_ Hcase]]); [lia |].
  rewrite int64_of_uint32 in Hcase by lia.
  destruct (ChainKit_GetBlockHash lnd height (node w)) as [[e | hash] n1];
    cbn [fst snd] in Hcase.
  - destruct Hcase as [_ Hres]. discriminate Hres.
  - destruct (Hash_eq_dec hash (BlockHash header)) as [-> | _];
      [| destruct Hcase as [_ Hres]; discriminate Hres].
    exists n1. split; [reflexivity |].
    destruct (fst (fst (GetBlockHeaderSupported w)));
      destruct Hcase as [_ Hres].
    + destruct (fst (ChainKit_GetBlockHeader lnd (BlockHash header) n1))
        as [e | h]; [discriminate Hres | eauto].
    + destruct (fst (ChainKit_GetBlock lnd (BlockHash header) n1))
        as [e | block]; [discriminate Hres | eauto].
Qed.

(** X2: for a height above 0, when the node answers [GetBlockHash] with
    an error, [VerifyBlock] returns that error wrapped in the text of
    [GetBlockHash] and stops: no version comparison, no further request,
    the bridge as it was. *)
Theorem VerifyBlock_hash_fetch_fails :
  forall (header : BlockHeader) (height : Z) (w : World B) (e : error)
         (n1 : B),
    0 < height < 2 ^ 32 ->
    ChainKit_GetBlockHash lnd height (node w) = (inl e, n1) ->
    VerifyBlock header height w =
      (Some (Errorf "unable to retrieve block hash: %w" [ArgW e]),
       {| bridge := bridge w; node := n1 |},
       [CallGetBlockHash height]).
Proof.
  intros header height w e n1 Hh Hrpc.
  unfold VerifyBlock.
  destruct (Z.eqb_spec height 0) as [-> | _]; [lia |].
  rewrite int64_of_uint32 by lia.
  rewrite bind_run, GetBlockHash_run, Hrpc. reflexivity.
Qed.


(** X4: whatever it returns, [VerifyBlock] leaves the timestamp cache as
    it was, changes the capability flag at most from unset to the answer
    of the version comparison, and issues one or two requests, each of
    them [GetBlock], [GetBlockHeader] or [GetBlockHash]. *)
Theorem VerifyBlock_frame :
  forall (header : BlockHeader) (height : Z) (w : World B),
    let '(_, w', t) := VerifyBlock header height w in
    blockTimestampCache (bridge w') = blockTimestampCache (bridge w) /\
    flag_step w w' /\
    (1 <= length (rpcs t) <= 2)%nat /\
    forallb is_chain_query (rpcs t) = true.
Proof.
  intros header height w.
  pose proof (VerifyBlock_outcome header height w) as Hout.
  destruct (VerifyBlock header height w) as [[res w'] t]. cbv zeta in Hout.
  destruct Hout as (Hc & Hf & Hcase).
  split; [exact Hc | split; [exact Hf |]].
  destruct Hcase as [(_ & -> & _) | [_ Hcase]]; [cbn; split; [lia | reflexivity] |].
  destruct (fst (ChainKit_GetBlockHash lnd (int64 height) (node w)))
    as [e | hash].
  - destruct Hcase as [-> _]. cbn. split; [lia | reflexivity].
  - destruct (Hash_eq_dec hash (BlockHash header)) as [_ | _].
    + destruct (fst (fst (GetBlockHeaderSupported w)));
        destruct Hcase as [-> _]; cbn; (split; [lia | reflexivity]).
    + destruct Hcase as [-> _]. cbn. split; [lia | reflexivity].
Qed.

(** ** The outcomes of [GetBlockTimestamp] *)

Lemma store_timestamp_eq (height : Z) (header : BlockHeader) (w : World B) :
  store_timestamp height header w =
  (uint32 (Timestamp header),
   {| bridge :=
        {| getBlockHeaderSupported := getBlockHeaderSupported (bridge w);
           blockTimestampCache :=
             snd (lru.Put height (uint32 (Timestamp header))
                    (blockTimestampCache (bridge w))) |};
      node := node w |},
   []).
Proof.
  unfold store_timestamp. rewrite bind_run. unfold cache_put, ret.
  unfold cacheableTimestamp.
  rewrite (uint32_small (uint32 _)) by apply uint32_range.
  rewrite int64_of_uint32 by apply uint32_range.
  reflexivity.
Qed.

Lemma GetBlockTimestamp_hit (height v : Z) (w : World B) :
  height <> 0 ->
  lru.find height (lru.ll (blockTimestampCache (bridge w))) = Some v ->
  GetBlockTimestamp height w =
  (int64 v,
   {| bridge :=
        {| getBlockHeaderSupported := getBlockHeaderSupported (bridge w);
           blockTimestampCache :=
             snd (lru.Get height (blockTimestampCache (bridge w))) |};
      node := node w |},
   []).
Proof.
  intros Hh Hfind. unfold GetBlockTimestamp.
  destruct (Z.eqb_spec height 0) as [| _]; [contradiction |].
  rewrite bind_run. unfold cache_get, lru.Get. rewrite Hfind. reflexivity.
Qed.

Lemma GetBlockTimestamp_outcome (height : Z) (w : World B) :
  let cache := blockTimestampCache (bridge w) in
  let '(ts, w', t) := GetBlockTimestamp height w in
  flag_step w w' /\
  if height =? 0 then ts = 0 /\ w' = w /\ t = []
  else
    match lru.find height (lru.ll cache) with
    | Some v =>
        ts = int64 v /\ t = [] /\ node w' = node w /\
        blockTimestampCache (bridge w') = snd (lru.Get height cache)
    | None =>
        match fst (ChainKit_GetBlockHash lnd (int64 height) (node w)) with
        | inl _ =>
            ts = 0 /\ t = [CallGetBlockHash (int64 height)] /\
            blockTimestampCache (bridge w') = cache
        | inr hash =>
            let n1 :=
              snd (ChainKit_GetBlockHash lnd (int64 height) (node w)) in
            if fst (fst (GetBlockHeaderSupported w)) then
              rpcs t = [CallGetBlockHash (int64 height);
                        CallGetBlockHeader hash] /\
              match fst (ChainKit_GetBlockHeader lnd hash n1) with
              | inl _ => ts = 0 /\ blockTimestampCache (bridge w') = cache
              | inr header =>
                  ts = uint32 (Timestamp header) /\
                  blockTimestampCache (bridge w') =
                    snd (lru.Put height (uint32 (Timestamp header)) cache)
              end
            else
              rpcs t = [CallGetBlockHash (int64 height); CallGetBlock hash] /\
              match fst (ChainKit_GetBlock lnd hash n1) with
              | inl _ => ts = 0 /\ blockTimestampCache (bridge w') = cache
              | inr block =>
                  ts = uint32 (Timestamp (Header block)) /\
                  blockTimestampCache (bridge w') =
                    snd (lru.Put height (uint32 (Timestamp (Header block)))
                           cache)
              end
        end
    end.
Proof.
  intros cache. subst cache.
  destruct (Z.eqb_spec height 0) as [-> | Hne].
  - cbn. split; [apply flag_step_refl | repeat split].
  - destruct (lru.find height (lru.ll (blockTimestampCache (bridge w))))
      as [v |] eqn:Hfind.
    + rewrite (GetBlockTimestamp_hit height v w Hne Hfind).
      split; [left; reflexivity | repeat split].
    + unfold GetBlockTimestamp.
      destruct (Z.eqb_spec height 0) as [| _]; [contradiction |].
      destruct w as [[flag cache] n]. cbn [bridge node blockTimestampCache] in *.
      rewrite bind_run. unfold cache_get, lru.Get.
      cbn [bridge node blockTimestampCache getBlockHeaderSupported].
      rewrite Hfind. rewrite bind_run, rpc_run.
      cbn [bridge node blockTimestampCache getBlockHeaderSupported].
      destruct (ChainKit_GetBlockHash lnd (int64 height) n)
        as [[e | hash] n1]; cbn [fst snd].
      * cbn. split; [left; reflexivity | repeat split].
      * rewrite bind_run.
        set (w0 := {| bridge := {| getBlockHeaderSupported := flag;
                                   blockTimestampCache := cache |};
                      node := n |}).
        set (w1 := {| bridge := {| getBlockHeaderSupported := flag;
                                   blockTimestampCache := cache |};
                      node := n1 |}).
        rewrite (GetBlockHeaderSupported_same_bridge w0 w1) by reflexivity.
        pose proof (GetBlockHeaderSupported_frame w1) as Hfr.
        pose proof (GetBlockHeaderSupported_flag_step w1) as Hfs.
        destruct (GetBlockHeaderSupported w1) as [[s w2] t2].
        destruct Hfr as (Hnode & Hcache & _ & Hrp & _).
        cbn in Hnode, Hcache, Hfs. cbn [fst].
        assert (Hfs0 : forall w3 : World B,
                   getBlockHeaderSupported (bridge w3) =
                   getBlockHeaderSupported (bridge w2) ->
                   flag_step w0 w3).
        { intros w3 H3. unfold flag_step in *. cbn in *.
          rewrite H3. exact Hfs. }
        destruct s; rewrite bind_run.
        -- rewrite GetBlockHeader_run, Hnode. cbv zeta.
           destruct (fst (ChainKit_GetBlockHeader lnd hash n1)) as [e | hdr];
             cbn [fst snd].
           ++ cbn [ret bridge]. rewrite !rpcs_app, Hrp.
              split; [apply Hfs0; reflexivity | repeat split; exact Hcache].
           ++ rewrite store_timestamp_eq.
              cbn [bridge blockTimestampCache getBlockHeaderSupported].
              rewrite !rpcs_app, Hrp, Hcache.
              split; [apply Hfs0; reflexivity | repeat split].
        -- rewrite rpc_run, Hnode.
           destruct (fst (ChainKit_GetBlock lnd hash n1)) as [e | block];
             cbn [fst snd].
           ++ cbn [ret bridge]. rewrite !rpcs_app, Hrp.
              split; [apply Hfs0; reflexivity | repeat split; exact Hcache].
           ++ rewrite store_timestamp_eq.
              cbn [bridge blockTimestampCache getBlockHeaderSupported].
              rewrite !rpcs_app, Hrp, Hcache.
              split; [apply Hfs0; reflexivity | repeat split].
Qed.

(** X5: after a timestamp lookup that fetched the header from the node,
    the next lookup of the same height returns the same timestamp from
    the cache: no request, the node and the capability flag as they
    were. *)
Theorem GetBlockTimestamp_second_lookup :
  forall (height : Z) (w : World B) (header : BlockHeader),
    lookup_fetches height w header ->
    let '(ts, w', _) := GetBlockTimestamp height w in
    exists c,
      GetBlockTimestamp height w' =
        (ts,
         {| bridge :=
              {| getBlockHeaderSupported :=
                   getBlockHeaderSupported (bridge w');
                 blockTimestampCache := c |};
            node := node w' |},
         []).
Proof.
  intros height w header H.
  pose proof (GetBlockTimestamp_outcome height w) as Hout.
  destruct (GetBlockTimestamp height w) as [[ts w'] t]. cbv zeta in Hout.
  destruct Hout as [_ Hout].
  assert (Hne : height <> 0) by (destruct H; assumption).
  destruct (Z.eqb_spec height 0) as [| _]; [contradiction |].
  assert (Hcached :
    ts = uint32 (Timestamp header) /\
    blockTimestampCache (bridge w') =
      snd (lru.Put height (uint32 (Timestamp header))
             (blockTimestampCache (bridge w)))).
  { destruct H as [hash n1 n2 _ Hfind Hrpc Hsup Hhdr
                  | hash block n1 n2 _ Hfind Hrpc Hsup Hblk Hheader];
      rewrite Hfind, Hrpc in Hout; cbn [fst snd] in Hout;
      rewrite Hsup in Hout; destruct Hout as [_ Hout].
    - rewrite Hhdr in Hout. exact Hout.
    - rewrite Hblk in Hout. cbn [fst] in Hout. rewrite Hheader in Hout.
      exact Hout. }
  destruct Hcached as [-> Hc].
  eexists.
  rewrite (GetBlockTimestamp_hit height (uint32 (Timestamp header)) w' Hne).
  - rewrite int64_of_uint32 by apply uint32_range. reflexivity.
  - rewrite Hc. apply Put_find.
Qed.

(** X6: a timestamp lookup that fails caches nothing: the cache is as it
    was, so a later lookup of the height asks the node again. *)
Theorem GetBlockTimestamp_failure_caches_nothing :
  forall (height : Z) (w : World B),
    lookup_fails height w ->
    let '(_, w', _) := GetBlockTimestamp height w in
    blockTimestampCache (bridge w') = blockTimestampCache (bridge w).
Proof.
  intros height w H.
  pose proof (GetBlockTimestamp_outcome height w) as Hout.
  destruct (GetBlockTimestamp height w) as [[ts w'] t]. cbv zeta in Hout.
  destruct Hout as [_ Hout].
  destruct H as [-> | e n1 Hh Hfind Hrpc
                 | hash e n1 n2 Hh Hfind Hrpc Hsup Hhdr
                 | hash e n1 n2 Hh Hfind Hrpc Hsup Hblk].
  - cbn in Hout. destruct Hout as (_ & -> & _). reflexivity.
  - destruct (Z.eqb_spec height 0) as [| _]; [contradiction |].
    rewrite Hfind, Hrpc in Hout. cbn [fst] in Hout. apply Hout.
  - destruct (Z.eqb_spec height 0) as [| _]; [contradiction |].
    rewrite Hfind, Hrpc in Hout. cbn [fst snd] in Hout.
    rewrite Hsup, Hhdr in Hout. apply Hout.
  - destruct (Z.eqb_spec height 0) as [| _]; [contradiction |].
    rewrite Hfind, Hrpc in Hout. cbn [fst snd] in Hout.
    rewrite Hsup, Hblk in Hout. apply Hout.
Qed.


(** ** What the other methods leave alone *)

Lemma exec_frame (op : Op) (w : World B) :
  let '(_, w', _) := exec op w in
  flag_step w w' /\
  (touches_cache op = false ->
   blockTimestampCache (bridge w') = blockTimestampCache (bridge w)).
Proof.
  destruct op; cbn [exec touches_cache].
  - unfold RegisterConfirmationsNtfn. rewrite !bind_run, rpc_run.
    destruct (fst (ChainNotifier_RegisterConfirmationsNtfn lnd _ _ _ _ _ _))
      as [[confChan errChan] [err |]]; cbn;
      (split; [left; reflexivity | reflexivity]).
  - unfold RegisterBlockEpochNtfn. rewrite bind_run, rpc_run. cbn.
    split; [left; reflexivity | reflexivity].
  - rewrite bind_run, GetBlock_run. cbn.
    split; [left; reflexivity | reflexivity].
  - rewrite bind_run, GetBlockHeader_run. cbn.
    split; [left; reflexivity | reflexivity].
  - rewrite bind_run, GetBlockHash_run. cbn.
    split; [left; reflexivity | reflexivity].
  - rewrite bind_run.
    pose proof (GetBlockHeaderSupported_frame w) as Hfr.
    pose proof (GetBlockHeaderSupported_flag_step w) as Hfs.
    destruct (GetBlockHeaderSupported w) as [[s w'] t].
    destruct Hfr as (_ & Hc & _). cbn in *. split; [exact Hfs | auto].
  - pose proof (VerifyBlock_outcome header height w) as Hout.
    destruct (VerifyBlock header height w) as [[res w'] t].
    cbv zeta in Hout. destruct Hout as (Hc & Hf & _). split; auto.
  - unfold CurrentHeight. rewrite !bind_run, rpc_run.
    destruct (fst (Client_GetInfo lnd (node w))); cbn;
      (split; [left; reflexivity | reflexivity]).
  - rewrite bind_run.
    pose proof (GetBlockTimestamp_outcome height w) as Hout.
    destruct (GetBlockTimestamp height w) as [[ts w'] t].
    cbv zeta in Hout. destruct Hout as [Hf _]. cbn.
    split; [exact Hf | discriminate].
  - unfold PublishTransaction. rewrite rpc_run. cbn.
    split; [left; reflexivity | reflexivity].
  - unfold EstimateFee. rewrite bind_run, rpc_run. cbn.
    split; [left; reflexivity | reflexivity].
Qed.

Lemma run_ops_frame (ops : list Op) (w : World B) :
  let '(_, w', _) := run_ops ops w in
  flag_step w w' /\
  (forallb (fun op => negb (touches_cache op)) ops = true ->
   blockTimestampCache (bridge w') = blockTimestampCache (bridge w)).
Proof.
  revert w. induction ops as [| op rest IH]; intros w; cbn [run_ops forallb].
  - split; [apply flag_step_refl | reflexivity].
  - rewrite bind_run.
    pose proof (exec_frame op w) as Hop.
    destruct (exec op w) as [[r w1] t1].
    specialize (IH w1). destruct (run_ops rest w1) as [[u w2] t2].
    destruct Hop as [Hf1 Hc1]. destruct IH as [Hf2 Hc2]. split.
    + eapply flag_step_trans; eassumption.
    + intros Hall. apply andb_prop in Hall. destruct Hall as [Hop Hrest].
      rewrite Hc2 by exact Hrest. apply Hc1.
      destruct (touches_cache op); [discriminate | reflexivity].
Qed.

(** X8: only [GetBlockTimestamp] reads or writes the timestamp cache:
    any sequence of the other methods leaves the cache as it was, so a
    timestamp that was cached before is still returned after, with no
    request. *)
Theorem cached_timestamp_survives :
  forall (ops : list Op) (w : World B) (height v : Z),
    height <> 0 ->
    lru.find height (lru.ll (blockTimestampCache (bridge w))) = Some v ->
    forallb (fun op => negb (touches_cache op)) ops = true ->
    let '(_, w1, _) := run_ops ops w in
    blockTimestampCache (bridge w1) = blockTimestampCache (bridge w) /\
    exists w2, GetBlockTimestamp height w1 = (int64 v, w2, []).
Proof.
  intros ops w height v Hne Hfind Hall.
  pose proof (run_ops_frame ops w) as H.
  destruct (run_ops ops w) as [[u w1] t1]. destruct H as [_ Hc].
  specialize (Hc Hall). split; [exact Hc |].
  eexists. apply GetBlockTimestamp_hit; [exact Hne |].
  rewrite Hc. exact Hfind.
Qed.

(** X9: on a bridge made by [NewLndRpcChainBridge], whatever has been
    called on it since, the capability check answers what the version
    comparison of the node's version with 0.17.1 gives. *)
Theorem capability_is_version_check :
  forall (ops : list Op) (n : B),
    let '(_, w, _) :=
      run_ops ops {| bridge := NewLndRpcChainBridge; node := n |} in
    fst (fst (GetBlockHeaderSupported w)) = version_ok.
Proof.
  intros ops n.
  pose proof (run_ops_frame ops
                {| bridge := NewLndRpcChainBridge; node := n |}) as H.
  destruct (run_ops ops _) as [[u w] t]. destruct H as [Hf _].
  rewrite GetBlockHeaderSupported_unfold.
  destruct Hf as [Hf | [_ Hf]]; cbn in Hf; rewrite Hf; reflexivity.
Qed.

(** ** Registrations and fees *)


(** X11: the request of [RegisterConfirmationsNtfn] carries the reorg
    channel always and the include-block option exactly when asked; the
    confirmation count and the height hint go out as [int32], so a value
    of 2^31 or more reaches the node as a negative number. *)
Theorem RegisterConfirmationsNtfn_request :
  forall (txid : Hash) (pkScript : bytes) (numConfs heightHint : Z)
         (includeBlock : bool) (reOrgChan : option chan) (w : World B),
    0 <= numConfs < 2 ^ 32 ->
    0 <= heightHint < 2 ^ 32 ->
    let '(_, _, t) :=
      RegisterConfirmationsNtfn txid pkScript numConfs heightHint
        includeBlock reOrgChan w in
    rpcs t =
      [CallRegisterConfirmationsNtfn txid pkScript
         (narrowed numConfs) (narrowed heightHint)
         (WithReOrgChan reOrgChan ::
          if includeBlock then [WithIncludeBlock] else [])].
Proof.
  intros txid pkScript numConfs heightHint includeBlock reOrgChan w Hn Hh.
  unfold RegisterConfirmationsNtfn, narrowed.
  rewrite bind_run, rpc_run.
  rewrite !int32_of_uint32 by assumption.
  destruct (fst (ChainNotifier_RegisterConfirmationsNtfn lnd _ _ _ _ _ _))
    as [[confChan errChan] [err |]]; destruct includeBlock; reflexivity.
Qed.

(** X12: [EstimateFee] asks the node once, for the confirmation target
    read as an [int32] (so a target of 2^31 or more is asked for as a
    negative number), and returns the node's answer as it is, leaving the
    bridge alone. *)
Theorem EstimateFee_request :
  forall (confTarget : Z) (w : World B),
    0 <= confTarget < 2 ^ 32 ->
    EstimateFee confTarget w =
      (fst (WalletKit_EstimateFeeRate lnd (narrowed confTarget) (node w)),
       {| bridge := bridge w;
          node :=
            snd (WalletKit_EstimateFeeRate lnd (narrowed confTarget)
                   (node w)) |},
       [CallEstimateFeeRate (narrowed confTarget)]).
Proof.
  intros confTarget w Hc. unfold EstimateFee, narrowed.
  rewrite rpc_run, int32_of_uint32 by assumption. reflexivity.
Qed.

(** ** Broadcasts *)

Lemma published_app (t1 t2 : list Event) :
  published (t1 ++ t2) = published t1 ++ published t2.
Proof.
  induction t1 as [| ev rest IH]; [reflexivity |].
  destruct ev; cbn; rewrite ?IH; reflexivity.
Qed.

Lemma published_rpcs (t : list Event) : published (rpcs t) = published t.
Proof.
  unfold rpcs. induction t as [| ev rest IH]; [reflexivity |].
  destruct ev; cbn; rewrite ?IH; reflexivity.
Qed.

Lemma published_chain_queries (t : list Event) :
  forallb is_chain_query t = true -> published t = [].
Proof.
  induction t as [| ev rest IH]; [reflexivity |].
  destruct ev; cbn; try discriminate; exact IH.
Qed.

Lemma VerifyBlock_publishes_nothing (header : BlockHeader) (height : Z)
    (w : World B) :
  published (snd (VerifyBlock header height w)) = [].
Proof.
  pose proof (VerifyBlock_outcome header height w) as Hout.
  destruct (VerifyBlock header height w) as [[res w'] t]. cbv zeta in Hout.
  cbn [snd]. rewrite <- published_rpcs.
  destruct Hout as (_ & _ & [(_ & -> & _) | [_ Hcase]]); [reflexivity |].
  destruct (fst (ChainKit_GetBlockHash lnd (int64 height) (node w)))
    as [e | hash].
  - destruct Hcase as [-> _]. reflexivity.
  - destruct (Hash_eq_dec hash (BlockHash header)) as [_ | _].
    + destruct (fst (fst (GetBlockHeaderSupported w)));
        destruct Hcase as [-> _]; reflexivity.
    + destruct Hcase as [-> _]. reflexivity.
Qed.

Lemma GetBlockTimestamp_publishes_nothing (height : Z) (w : World B) :
  published (snd (GetBlockTimestamp height w)) = [].
Proof.
  pose proof (GetBlockTimestamp_outcome height w) as Hout.
  destruct (GetBlockTimestamp height w) as [[ts w'] t]. cbv zeta in Hout.
  cbn [snd]. rewrite <- published_rpcs. destruct Hout as [_ Hout].
  destruct (height =? 0); [destruct Hout as (_ & _ & ->); reflexivity |].
  destruct (lru.find height _) as [v |];
    [destruct Hout as (_ & -> & _); reflexivity |].
  destruct (fst (ChainKit_GetBlockHash lnd (int64 height) (node w)))
    as [e | hash]; [destruct Hout as (_ & -> & _); reflexivity |].
  destruct (fst (fst (GetBlockHeaderSupported w)));
    destruct Hout as [-> _]; reflexivity.
Qed.

Lemma exec_published (op : Op) (w : World B) :
  published (snd (exec op w)) =
  match op with
  | OpPublishTransaction tx => [(tx, "tapd-asset-minting"%string)]
  | _ => []
  end.
Proof.
  destruct op; cbn [exec].
  - unfold RegisterConfirmationsNtfn. rewrite !bind_run, rpc_run.
    destruct (fst (ChainNotifier_RegisterConfirmationsNtfn lnd _ _ _ _ _ _))
      as [[confChan errChan] [err |]]; reflexivity.
  - unfold RegisterBlockEpochNtfn. rewrite bind_run, rpc_run. reflexivity.
  - rewrite bind_run, GetBlock_run. reflexivity.
  - rewrite bind_run, GetBlockHeader_run. reflexivity.
  - rewrite bind_run, GetBlockHash_run. reflexivity.
  - rewrite bind_run, GetBlockHeaderSupported_unfold.
    destruct (getBlockHeaderSupported (bridge w)); reflexivity.
  - apply VerifyBlock_publishes_nothing.
  - unfold CurrentHeight. rewrite !bind_run, rpc_run.
    destruct (fst (Client_GetInfo lnd (node w))); reflexivity.
  - rewrite bind_run.
    pose proof (GetBlockTimestamp_publishes_nothing height w) as H.
    destruct (GetBlockTimestamp height w) as [[ts w'] t]. cbn in *.
    rewrite app_nil_r. exact H.
  - unfold PublishTransaction. rewrite rpc_run. reflexivity.
  - unfold EstimateFee. rewrite bind_run, rpc_run. reflexivity.
Qed.

(** X13: over any sequence of calls on the bridge, the transactions
    handed to the node for broadcast are exactly those of the
    [PublishTransaction] calls, each once and in call order, each under
    the label tapd-asset-minting; no other method publishes and nothing
    is published twice. *)
Theorem published_exactly_requested :
  forall (ops : list Op) (w : World B),
    published (snd (run_ops ops w)) =
    map (fun tx => (tx, "tapd-asset-minting"%string)) (requested ops).
Proof.
  induction ops as [| op rest IH]; intros w; [reflexivity |].
  cbn [run_ops]. rewrite bind_run.
  pose proof (exec_published op w) as Hop.
  destruct (exec op w) as [[r w1] t1].
  specialize (IH w1). destruct (run_ops rest w1) as [[u w2] t2].
  cbn [snd] in *. rewrite published_app, Hop, IH.
  destruct op; reflexivity.
Qed.

End Bridge.

(** * The properties on the small node *)

(** Block A is claimed at height 2, where the node has block B. *)
Lemma VerifyBlock_height_mismatch_demo :
  0 < 2 < 2 ^ 32 /\
  Demo.hashB <> Demo.BlockHash Demo.headerA /\
  exists r,
    VerifyBlock (Demo.lnd Demo.v0_18_0) Demo.BlockHash
      Demo.AssertVersionCompatible Demo.headerA 2 Demo.w0 =
      (Some r, {| bridge := bridge Demo.w0; node := 1%nat |},
       [CallGetBlockHash 2]) /\
    r = Errorf
          "block hash and block height mismatch; (height: %d, hashAtHeight: %s, expectedHash: %s)"
          [ArgD 2; ArgS Demo.hashB; ArgS (Demo.BlockHash Demo.headerA)] /\
    Unwrap r = None /\
    (forall e, ~ adds_context e r).
Proof.
  assert (Hneq : Demo.hashB <> Demo.BlockHash Demo.headerA)
    by (vm_compute; discriminate).
  split; [lia | split; [exact Hneq |]].
  apply (VerifyBlock_height_mismatch (Demo.lnd Demo.v0_18_0) Demo.BlockHash
           Demo.AssertVersionCompatible Demo.headerA 2 Demo.w0 Demo.hashB 1%nat);
    [lia | reflexivity | exact Hneq].
Defined.

(** Block A at its own height 1, on a node that has [GetBlockHeader]. *)
Lemma VerifyBlock_presence_fetch_demo :
  let '(res, _, t) :=
    VerifyBlock (Demo.lnd Demo.v0_18_0) Demo.BlockHash
      Demo.AssertVersionCompatible Demo.headerA 1 Demo.w0 in
  if fst (fst (GetBlockHeaderSupported (Demo.lnd Demo.v0_18_0)
                 Demo.AssertVersionCompatible
                 {| bridge := bridge Demo.w0; node := 1%nat |})) then
    rpcs t = [CallGetBlockHash 1;
              CallGetBlockHeader (Demo.BlockHash Demo.headerA)] /\
    (res = None <->
     exists h,
       fst (ChainKit_GetBlockHeader (Demo.lnd Demo.v0_18_0)
              (Demo.BlockHash Demo.headerA) 1%nat) = inr h)
  else
    rpcs t = [CallGetBlockHash 1;
              CallGetBlock (Demo.BlockHash Demo.headerA)] /\
    (res = None <->
     exists block,
       fst (ChainKit_GetBlock (Demo.lnd Demo.v0_18_0)
              (Demo.BlockHash Demo.headerA) 1%nat) = inr block).
Proof.
  apply (VerifyBlock_presence_fetch (Demo.lnd Demo.v0_18_0) Demo.BlockHash
           Demo.AssertVersionCompatible Demo.headerA 1 Demo.w0 1%nat);
    [lia | reflexivity].
Defined.

(** The four failures: height 0; no block at height 9; at height 2 the
    node has the hash but neither the header (asked by a bridge on lnd
    0.18) nor the block (asked by a bridge on lnd 0.16). *)
Lemma GetBlockTimestamp_failure_is_zero_demo :
  (exists w' t,
     GetBlockTimestamp (Demo.lnd Demo.v0_18_0) Demo.AssertVersionCompatible
       0 Demo.w0 = (0, w', t) /\ (0 = 0 -> w' = Demo.w0 /\ t = [])) /\
  (exists w' t,
     GetBlockTimestamp (Demo.lnd Demo.v0_18_0) Demo.AssertVersionCompatible
       9 Demo.w0 = (0, w', t) /\ (9 = 0 -> w' = Demo.w0 /\ t = [])) /\
  (exists w' t,
     GetBlockTimestamp (Demo.lnd Demo.v0_18_0) Demo.AssertVersionCompatible
       2 Demo.w0 = (0, w', t) /\ (2 = 0 -> w' = Demo.w0 /\ t = [])) /\
  (exists w' t,
     GetBlockTimestamp (Demo.lnd Demo.v0_16_0) Demo.AssertVersionCompatible
       2 Demo.w0 = (0, w', t) /\ (2 = 0 -> w' = Demo.w0 /\ t = [])).
Proof.
  repeat split.
  - apply (GetBlockTimestamp_failure_is_zero (Demo.lnd Demo.v0_18_0)
             Demo.AssertVersionCompatible 0 Demo.w0).
    apply fails_no_height. reflexivity.
  - apply (GetBlockTimestamp_failure_is_zero (Demo.lnd Demo.v0_18_0)
             Demo.AssertVersionCompatible 9 Demo.w0).
    apply (fails_hash _ _ 9 Demo.w0 (ErrorNew "height out of range") 1%nat);
      [discriminate | reflexivity | reflexivity].
  - apply (GetBlockTimestamp_failure_is_zero (Demo.lnd Demo.v0_18_0)
             Demo.AssertVersionCompatible 2 Demo.w0).
    apply (fails_header _ _ 2 Demo.w0 Demo.hashB
             (ErrorNew "header not found") 1%nat 2%nat);
      [discriminate | reflexivity | reflexivity | reflexivity | reflexivity].
  - apply (GetBlockTimestamp_failure_is_zero (Demo.lnd Demo.v0_16_0)
             Demo.AssertVersionCompatible 2 Demo.w0).
    apply (fails_block _ _ 2 Demo.w0 Demo.hashB
             (ErrorNew "block not found") 1%nat 2%nat);
      [discriminate | reflexivity | reflexivity | reflexivity | reflexivity].
Defined.

(** Height 1 is cached with timestamp 5 under two other heights. *)
Lemma GetBlockTimestamp_cached_demo :
  exists c',
    GetBlockTimestamp (Demo.lnd Demo.v0_18_0) Demo.AssertVersionCompatible 1
      {| bridge :=
           {| getBlockHeaderSupported := Some true;
              blockTimestampCache :=
                {| lru.capacity := maxNumBlocksInCache;
                   lru.ll := [(7, 70); (1, 5); (3, 30)] |} |};
         node := 4%nat |} =
      (5,
       {| bridge := {| getBlockHeaderSupported := Some true;
                       blockTimestampCache := c' |};
          node := 4%nat |},
       []) /\
    lru.find 1 (lru.ll c') = Some 5.
Proof.
  apply (GetBlockTimestamp_cached (Demo.lnd Demo.v0_18_0)
           Demo.AssertVersionCompatible 1
           {| bridge :=
                {| getBlockHeaderSupported := Some true;
                   blockTimestampCache :=
                     {| lru.capacity := maxNumBlocksInCache;
                        lru.ll := [(7, 70); (1, 5); (3, 30)] |} |};
              node := 4%nat |} 5).
  - lia.
  - repeat constructor; cbn; lia.
  - reflexivity.
Defined.




(** A ping of two bytes goes out as type 18 with three bytes of payload,
    which decode to the ping. *)
Lemma SendMessage_envelope_demo :
  let msg := {| Demo.PingBody := [Byte.x01; Byte.x02] |} in
  let peer := {| PubX := 7; PubY := 11 |} in
  let envelope :=
    {| Peer := Demo.NewVertex peer; MsgType := 18;
       Data := [Byte.x02; Byte.x01; Byte.x02] |} in
  SendMessage (Demo.lnd Demo.v0_18_0) Demo.NewVertex peer msg Demo.w0 =
    (None, {| bridge := bridge Demo.w0; node := 1%nat |},
     [CallSendCustomMessage envelope]) /\
  Decode (Data envelope) 0 = inr msg.
Proof.
  intros msg peer envelope.
  apply (SendMessage_envelope (Demo.lnd Demo.v0_18_0) Demo.NewVertex
           Demo.Ping Demo.PingMessage peer msg Demo.w0).
  - cbn. lia.
  - intros buf Henc. vm_compute in Henc. injection Henc as <-. reflexivity.
Defined.

(** Block A carries a timestamp of 2^32 + 5 seconds; the lookup at its
    height returns 5 and caches 5. *)
Lemma GetBlockTimestamp_uint32_demo :
  let '(ts, w', _) :=
    GetBlockTimestamp (Demo.lnd Demo.v0_18_0) Demo.AssertVersionCompatible
      1 Demo.w0 in
  ts = (2 ^ 32 + 5) mod 2 ^ 32 /\
  lru.find 1 (lru.ll (blockTimestampCache (bridge w'))) =
    Some ((2 ^ 32 + 5) mod 2 ^ 32).
Proof.
  apply (proj2 (GetBlockTimestamp_uint32 (Demo.lnd Demo.v0_18_0)
                  Demo.BlockHash Demo.AssertVersionCompatible)
           1 Demo.w0 Demo.headerA).
  apply (fetches_header _ _ 1 Demo.w0 Demo.headerA Demo.hashA 1%nat 2%nat);
    [discriminate | reflexivity | reflexivity | reflexivity | reflexivity].
Defined.

(** * The further properties on the small node *)

(** Block A verifies at height 1 on the node with lnd 0.18: the node has
    its hash at that height and its header. *)
Lemma VerifyBlock_nil_sound_demo :
  exists n1,
    ChainKit_GetBlockHash (Demo.lnd Demo.v0_18_0) 1 (node Demo.w0) =
      (inr (Demo.BlockHash Demo.headerA), n1) /\
    if fst (fst (GetBlockHeaderSupported (Demo.lnd Demo.v0_18_0)
                   Demo.AssertVersionCompatible Demo.w0)) then
      exists h,
        fst (ChainKit_GetBlockHeader (Demo.lnd Demo.v0_18_0)
               (Demo.BlockHash Demo.headerA) n1) = inr h
    else
      exists block,
        fst (ChainKit_GetBlock (Demo.lnd Demo.v0_18_0)
               (Demo.BlockHash Demo.headerA) n1) = inr block.
Proof.
  eapply (VerifyBlock_nil_sound (Demo.lnd Demo.v0_18_0) Demo.BlockHash
            Demo.AssertVersionCompatible Demo.headerA 1 Demo.w0);
    [lia | reflexivity].
Defined.

(** The node has no block at height 9. *)
Lemma VerifyBlock_hash_fetch_fails_demo :
  VerifyBlock (Demo.lnd Demo.v0_18_0) Demo.BlockHash
    Demo.AssertVersionCompatible Demo.headerA 9 Demo.w0 =
    (Some (Errorf "unable to retrieve block hash: %w"
             [ArgW (ErrorNew "height out of range")]),
     {| bridge := bridge Demo.w0; node := 1%nat |},
     [CallGetBlockHash 9]).
Proof.
  apply (VerifyBlock_hash_fetch_fails (Demo.lnd Demo.v0_18_0) Demo.BlockHash
           Demo.AssertVersionCompatible Demo.headerA 9 Demo.w0
           (ErrorNew "height out of range") 1%nat);
    [lia | reflexivity].
Defined.


(** The timestamp of block A is fetched once; the second lookup of
    height 1 is served from the cache. *)
Lemma GetBlockTimestamp_second_lookup_demo :
  let '(ts, w', _) :=
    GetBlockTimestamp (Demo.lnd Demo.v0_18_0) Demo.AssertVersionCompatible
      1 Demo.w0 in
  exists c,
    GetBlockTimestamp (Demo.lnd Demo.v0_18_0) Demo.AssertVersionCompatible
      1 w' =
      (ts,
       {| bridge :=
            {| getBlockHeaderSupported := getBlockHeaderSupported (bridge w');
               blockTimestampCache := c |};
          node := node w' |},
       []).
Proof.
  apply (GetBlockTimestamp_second_lookup (Demo.lnd Demo.v0_18_0)
           Demo.AssertVersionCompatible 1 Demo.w0 Demo.headerA).
  apply (fetches_header _ _ 1 Demo.w0 Demo.headerA Demo.hashA 1%nat 2%nat);
    [discriminate | reflexivity | reflexivity | reflexivity | reflexivity].
Defined.

(** The lookup of height 9 fails and leaves the cache empty. *)
Lemma GetBlockTimestamp_failure_caches_nothing_demo :
  let '(_, w', _) :=
    GetBlockTimestamp (Demo.lnd Demo.v0_18_0) Demo.AssertVersionCompatible
      9 Demo.w0 in
  blockTimestampCache (bridge w') = blockTimestampCache (bridge Demo.w0).
Proof.
  apply (GetBlockTimestamp_failure_caches_nothing (Demo.lnd Demo.v0_18_0)
           Demo.AssertVersionCompatible 9 Demo.w0).
  apply (fails_hash _ _ 9 Demo.w0 (ErrorNew "height out of range") 1%nat);
    [discriminate | reflexivity | reflexivity].
Defined.

(** Height 1 is cached as 5; a verification, a broadcast and a height
    query later it still is. *)
Lemma cached_timestamp_survives_demo :
  let w :=
    {| bridge :=
         {| getBlockHeaderSupported := None;
            blockTimestampCache :=
              {| lru.capacity := maxNumBlocksInCache;
                 lru.ll := [(1, 5)] |} |};
       node := O |} in
  let '(_, w1, _) :=
    run_ops (Demo.lnd Demo.v0_18_0) Demo.BlockHash
      Demo.AssertVersionCompatible
      [OpVerifyBlock Demo.headerA 1; OpPublishTransaction []; OpCurrentHeight]
      w in
  blockTimestampCache (bridge w1) = blockTimestampCache (bridge w) /\
  exists w2,
    GetBlockTimestamp (Demo.lnd Demo.v0_18_0) Demo.AssertVersionCompatible
      1 w1 = (int64 5, w2, []).
Proof.
  intros w.
  apply (cached_timestamp_survives (Demo.lnd Demo.v0_18_0) Demo.BlockHash
           Demo.AssertVersionCompatible
           [OpVerifyBlock Demo.headerA 1; OpPublishTransaction [];
            OpCurrentHeight] w 1 5);
    [discriminate | reflexivity | reflexivity].
Defined.

(** 2^31 confirmations are asked for as -2^31, a hint of 2^32 - 1 as -1. *)
Lemma RegisterConfirmationsNtfn_request_demo :
  let '(_, _, t) :=
    RegisterConfirmationsNtfn (Demo.lnd Demo.v0_18_0) Demo.hashA []
      (2 ^ 31) (2 ^ 32 - 1) true (Some 9%nat) Demo.w0 in
  rpcs t =
    [CallRegisterConfirmationsNtfn Demo.hashA [] (narrowed (2 ^ 31))
       (narrowed (2 ^ 32 - 1))
       [WithReOrgChan (Some 9%nat); WithIncludeBlock]] /\
  narrowed (2 ^ 31) = - 2 ^ 31 /\ narrowed (2 ^ 32 - 1) = - 1.
Proof.
  split; [| split; reflexivity].
  apply (RegisterConfirmationsNtfn_request (Demo.lnd Demo.v0_18_0)
           Demo.hashA [] (2 ^ 31) (2 ^ 32 - 1) true (Some 9%nat) Demo.w0);
    lia.
Defined.

(** A confirmation target of 2^32 - 1 is asked for as -1, which the node
    rejects. *)
Lemma EstimateFee_request_demo :
  EstimateFee (Demo.lnd Demo.v0_18_0) (2 ^ 32 - 1) Demo.w0 =
    (fst (WalletKit_EstimateFeeRate (Demo.lnd Demo.v0_18_0)
            (narrowed (2 ^ 32 - 1)) (node Demo.w0)),
     {| bridge := bridge Demo.w0;
        node := snd (WalletKit_EstimateFeeRate (Demo.lnd Demo.v0_18_0)
                       (narrowed (2 ^ 32 - 1)) (node Demo.w0)) |},
     [CallEstimateFeeRate (narrowed (2 ^ 32 - 1))]) /\
  narrowed (2 ^ 32 - 1) = - 1 /\
  fst (fst (EstimateFee (Demo.lnd Demo.v0_18_0) (2 ^ 32 - 1) Demo.w0)) =
    inl (ErrorNew "bad conf target").
Proof.
  split; [| split; reflexivity].
  apply (EstimateFee_request (Demo.lnd Demo.v0_18_0) (2 ^ 32 - 1) Demo.w0).
  lia.
Defined.
